(** * Resume Roaster front end: the API client and its polling loops

    A shallow embedding of [src/lib/api.ts], of the status poller of
    [src/pages/Generate.tsx] and of the file handlers of the
    [UploadSection] component, together with the properties the
    specification states about them.

    JavaScript values that the code leaves untyped (the result of
    [response.json()] where it is used as [any]) are JSON values where the
    code hands them on, and are given by their truthiness and their string
    where the code does no more than coerce them; values the code gives a
    TypeScript type are records and enumerations.  Promises,
    timers and pending requests are explicit components of a state that an
    event loop advances one task at a time. *)

From Stdlib Require Import ZArith.
From stdpp Require Import gmap strings list fin_maps.

Local Open Scope Z_scope.
Local Open Scope string_scope.

(** ** JavaScript preliminaries *)

(** A thrown value: an [Error] object with its message, or anything else. *)
Inductive Exn : Type :=
| Error (message : string)
| NonError (descr : string).

(** How an evaluation, or an awaited promise, ends. *)
Inductive Completion (A : Type) : Type :=
| Normal (a : A)
| Throw (e : Exn).
Arguments Normal {A} a.
Arguments Throw {A} e.

(** JSON values, as produced by [response.json()]. *)
#[warnings="-register-all"]
Inductive json : Type :=
| JNull
| JBool (b : bool)
| JNum (z : Z)
| JStr (s : string)
| JArr (l : list json)
| JObj (fields : gmap string json).

(** [ToBoolean] on JSON values. *)
Definition truthy (v : json) : bool :=
  match v with
  | JNull => false
  | JBool b => b
  | JNum z => negb (z =? 0)%Z
  | JStr s => negb (String.eqb s "")
  | JArr _ | JObj _ => true
  end.

(** Property read [v.k]: [None] is [undefined].  Reading a property of
    [null] throws a [TypeError].  Only own data properties are modelled
    (the fields of an object, [length] of a string or an array). *)
Definition get_prop (v : json) (k : string) : Completion (option json) :=
  match v with
  | JNull =>
      Throw (Error ("Cannot read properties of null (reading '" ++ k ++ "')"))
  | JObj fields => Normal (fields !! k)
  | JStr s =>
      Normal (if String.eqb k "length"
              then Some (JNum (Z.of_nat (String.length s))) else None)
  | JArr l =>
      Normal (if String.eqb k "length"
              then Some (JNum (Z.of_nat (length l))) else None)
  | JBool _ | JNum _ => Normal None
  end.

(** [s || d] for an optional string: [undefined] and the empty string are
    falsy. *)
Definition or_default (s : option string) (d : string) : string :=
  match s with
  | Some x => if String.eqb x "" then d else x
  | None => d
  end.

(** [s.endsWith(suffix)]. *)
Definition endsWith (s suffix : string) : bool :=
  let n := String.length s in
  let m := String.length suffix in
  if (m <=? n)%nat then String.eqb (String.substring (n - m) m s) suffix else false.

(** A JavaScript value as far as [x || d] and [new Error(x)] look at it:
    its truthiness and its string.  Every pair is the pair of some value:
    [true] and the empty string of [[]], [false] and ["0"] of [0]. *)
Record Coerced : Type := {
  ToBoolean : bool;
  ToString : string
}.

(** A string as such a value: truthy unless empty. *)
Definition of_string (s : string) : Coerced :=
  {| ToBoolean := negb (String.eqb s ""); ToString := s |}.

(** Where the code runs.  The two differ in the delay that [setTimeout]
    gives a timer when the delay asked for is below 1 or above [2^31 - 1]. *)
Inductive Host : Type := Browser | NodeJs.

(** [ToInt32]: the number as a signed 32-bit integer. *)
Definition ToInt32 (z : Z) : Z := (z + 2 ^ 31) mod 2 ^ 32 - 2 ^ 31.

(** The delay of the timer of [setTimeout(f, ms)].  A browser takes [ms]
    as a 32-bit integer and counts a negative one as zero; Node.js takes 1
    for every [ms] outside [1 .. 2^31 - 1]. *)
Definition timer_delay (host : Host) (ms : Z) : Z :=
  match host with
  | Browser => Z.max 0 (ToInt32 ms)
  | NodeJs => if (1 <=? ms)%Z && (ms <=? 2147483647)%Z then ms else 1
  end.

(** Code that reads and writes a state [S] and may throw. *)
Definition Js (S A : Type) : Type := S -> Completion A * S.

#[export] Instance Js_ret {S} : MRet (Js S) := fun A a s => (Normal a, s).
#[export] Instance Js_bind {S} : MBind (Js S) := fun A B k m s =>
  match m s with
  | (Normal a, s') => k a s'
  | (Throw e, s') => (Throw e, s')
  end.

(** [try { body } catch (error) { handler }]. *)
Definition try_catch {S A} (body : Js S A) (handler : Exn -> Js S A) : Js S A :=
  fun s =>
    match body s with
    | (Normal a, s') => (Normal a, s')
    | (Throw e, s') => handler e s'
    end.

(** A [toast.success] or a [toast.error] shown to the user. *)
Inductive Toast : Type :=
| toast_success (msg : string)
| toast_error (msg : string).

(** ** The API client, [src/lib/api.ts] *)
Module Api.

(** [import.meta.env.VITE_API_URL || "http://localhost:8000"]: the
    build-time environment is a parameter of everything below. *)
Definition API_BASE_URL (VITE_API_URL : option string) : string :=
  or_default VITE_API_URL "http://localhost:8000".

Inductive Status : Type :=
| pending | analyzing | roasting | generating | completed | failed.

Definition Status_eqb (a b : Status) : bool :=
  match a, b with
  | pending, pending | analyzing, analyzing | roasting, roasting
  | generating, generating | completed, completed | failed, failed => true
  | _, _ => false
  end.

Record JobStatus : Type := {
  job_id : string;
  status : Status;
  progress : Z;
  message : string;
  video_url : option string;
  roast_text : option string;
  score : option Z;
  error : option string
}.

Record UploadResponse : Type := {
  upload_job_id : string;
  upload_message : string
}.

(** A [File]: the three attributes the front end reads. *)
Record File : Type := {
  name : string;
  type : string;
  size : Z
}.

Inductive FormValue : Type :=
| FormFile (f : File)
| FormText (s : string).

Inductive Method : Type := GET | POST.

(** What [fetch] is called with.  A [FormData] keeps its entries in
    the order they were appended. *)
Record Request : Type := {
  url : string;
  method : Method;
  body : list (string * FormValue)
}.

(** The parsed body of a response that is not ok, which the code reads as
    [error.detail] and no further: the JSON value [null], of which no
    property can be read, or any other value with what its [detail] is
    ([None]: undefined, the body has no such property). *)
Inductive ErrorBody : Type :=
| null_body
| with_detail (detail : option Coerced).

(** What a [fetch] comes back with.  [A] is the type the caller gives the
    parsed body of a successful response.
    - [NetworkError e]: the promise of [fetch] rejects with [e];
    - [HttpOk b]: [response.ok] holds and [response.json()] ends as [b];
    - [HttpFail b]: [response.ok] is false and [response.json()] ends as
      [b]. *)
Inductive Reply (A : Type) : Type :=
| NetworkError (e : Exn)
| HttpOk (parsed : Completion A)
| HttpFail (parsed : Completion ErrorBody).
Arguments NetworkError {A} e.
Arguments HttpOk {A} parsed.
Arguments HttpFail {A} parsed.

(** The shared shape of the failure branch:
    [const error = await response.json().catch(() => ({ detail: d1 }));
     throw new Error(error.detail || d2)].
    What is thrown is the [TypeError] of reading [detail] off [null], or
    the new [Error], whose message is the string of its argument. *)
Definition http_failure (parsed : Completion ErrorBody)
    (d1 d2 : string) : Exn :=
  let error :=
    match parsed with
    | Normal b => b
    | Throw _ => with_detail (Some (of_string d1))
    end in
  match error with
  | null_body => Error "Cannot read properties of null (reading 'detail')"
  | with_detail None => Error d2
  | with_detail (Some detail) =>
      if ToBoolean detail then Error (ToString detail) else Error d2
  end.

(** [uploadResume]: the request it sends.  [backgroundVideo] is [None]
    when the caller omits the argument. *)
Definition uploadResume_request (env : option string) (file : File)
    (backgroundVideo : option string) : Request :=
  let backgroundVideo := default "subway_surfer" backgroundVideo in
  let formData := [("file", FormFile file)] in
  let formData :=
    (formData ++ [("background_video", FormText backgroundVideo)])%list in
  {| url := API_BASE_URL env ++ "/api/upload";
     method := POST;
     body := formData |}.

(** [uploadResume]: what it makes of the reply. *)
Definition uploadResume_result (r : Reply UploadResponse)
    : Completion UploadResponse :=
  match r with
  | NetworkError e => Throw e
  | HttpFail parsed =>
      Throw (http_failure parsed "Upload failed" "Failed to upload resume")
  | HttpOk parsed => parsed
  end.

Definition getJobStatus_request (env : option string) (jobId : string)
    : Request :=
  {| url := API_BASE_URL env ++ "/api/status/" ++ jobId;
     method := GET;
     body := [] |}.

Definition getJobStatus_result (r : Reply JobStatus) : Completion JobStatus :=
  match r with
  | NetworkError e => Throw e
  | HttpFail parsed =>
      Throw (http_failure parsed "Status check failed" "Failed to get job status")
  | HttpOk parsed => parsed
  end.

Definition getVideoUrl (env : option string) (jobId : string) : string :=
  API_BASE_URL env ++ "/api/video/" ++ jobId.

Definition getAvailableBackgrounds_request (env : option string) : Request :=
  {| url := API_BASE_URL env ++ "/api/backgrounds";
     method := GET;
     body := [] |}.

(** [getAvailableBackgrounds]: here the parsed body stays untyped
    ([data] is [any]), and the failure branch never reads the body. *)
Definition getAvailableBackgrounds_result (r : Reply json) : Completion json :=
  match r with
  | NetworkError e => Throw e
  | HttpFail _ => Throw (Error "Failed to get backgrounds")
  | HttpOk parsed =>
      match parsed with
      | Throw e => Throw e
      | Normal data =>
          match get_prop data "backgrounds" with
          | Throw e => Throw e
          | Normal (Some v) => Normal (if truthy v then v else JArr [])
          | Normal None => Normal (JArr [])
          end
      end
  end.

(** The result of a completed job, [RoastResult], and one of its issues. *)
Record Issue : Type := {
  category : string;
  severity : string;
  description : string
}.

Record RoastResult : Type := {
  result_job_id : string;
  result_roast_text : string;
  result_score : Z;
  result_video_url : string;
  issues : list Issue
}.

Definition getResult_request (env : option string) (jobId : string) : Request :=
  {| url := API_BASE_URL env ++ "/api/result/" ++ jobId;
     method := GET;
     body := [] |}.

Definition getResult_result (r : Reply RoastResult) : Completion RoastResult :=
  match r with
  | NetworkError e => Throw e
  | HttpFail parsed =>
      Throw (http_failure parsed "Failed to get result" "Failed to get result")
  | HttpOk parsed => parsed
  end.

(** What the health check answers with. *)
Record Health : Type := {
  health_status : string;
  health_message : string;
  video_generation : string;
  available_backgrounds : option (list string)
}.

Definition checkHealth_request (env : option string) : Request :=
  {| url := API_BASE_URL env ++ "/";
     method := GET;
     body := [] |}.

(** [checkHealth]: the failure branch never reads the body. *)
Definition checkHealth_result (r : Reply Health) : Completion Health :=
  match r with
  | NetworkError e => Throw e
  | HttpFail _ => Throw (Error "API is not available")
  | HttpOk parsed => parsed
  end.

End Api.

(** ** [pollJobStatus], [src/lib/api.ts]

    One call of [pollJobStatus] owns a promise, the [getJobStatus] calls it
    is awaiting and the timers it has set.  The event loop runs one task at
    a time: a timer that fires calls [checkStatus], a reply that arrives
    resumes the [checkStatus] that awaits it. *)
Module PollJobStatus.
Import Api.

Record Loop : Type := {
  now : Z;                                  (* clock, in ms *)
  inflight : nat;                           (* getJobStatus calls awaited *)
  timers : list Z;                          (* due times of setTimeout(checkStatus, _) *)
  promise : option (Completion JobStatus);  (* [None]: still pending *)
  fetches : list (Z * Request);             (* every fetch and when, oldest first *)
  returned_at : list Z;                     (* when each await ended, oldest first *)
  observed : list JobStatus;                (* what getJobStatus returned, oldest first *)
  progress_calls : list JobStatus           (* arguments of onProgress, oldest first *)
}.

Abbreviation M := (Js Loop).

(** A promise settles once; later [resolve] and [reject] do nothing. *)
Definition settle (c : Completion JobStatus) : M unit := fun s =>
  (Normal tt,
   match promise s with
   | Some _ => s
   | None =>
       {| now := now s; inflight := inflight s; timers := timers s;
          promise := Some c; fetches := fetches s;
          returned_at := returned_at s; observed := observed s;
          progress_calls := progress_calls s |}
   end).

Definition resolve (v : JobStatus) : M unit := settle (Normal v).
Definition reject (e : Exn) : M unit := settle (Throw e).

(** [setTimeout(checkStatus, ms)]. *)
Definition setTimeout_checkStatus (host : Host) (ms : Z) : M unit := fun s =>
  (Normal tt,
   {| now := now s; inflight := inflight s;
      timers := timers s ++ [now s + timer_delay host ms];
      promise := promise s; fetches := fetches s;
      returned_at := returned_at s; observed := observed s;
      progress_calls := progress_calls s |}).

(** [l] without the first timer due at [d]: the one that fires. *)
Fixpoint remove_first (d : Z) (l : list Z) : list Z :=
  match l with
  | [] => []
  | x :: l' => if (x =? d)%Z then l' else x :: remove_first d l'
  end.

Section Call.
(** Where the call runs, the build-time environment and the three
    arguments of the call: [onProgress] and [intervalMs] are [None] when
    omitted. *)
Context (host : Host) (env : option string) (jobId : string)
        (onProgress : option (JobStatus -> Completion unit))
        (intervalMs : option Z).

Definition interval : Z := default 2000%Z intervalMs.

(** [await getJobStatus(jobId)] ends as the reply decides. *)
Definition await_getJobStatus (r : Reply JobStatus) : M JobStatus := fun s =>
  match getJobStatus_result r with
  | Normal st =>
      (Normal st,
       {| now := now s; inflight := inflight s; timers := timers s;
          promise := promise s; fetches := fetches s;
          returned_at := returned_at s; observed := observed s ++ [st];
          progress_calls := progress_calls s |})
  | Throw e => (Throw e, s)
  end.

(** [if (onProgress) { onProgress(status); }] *)
Definition call_onProgress (st : JobStatus) : M unit := fun s =>
  match onProgress with
  | None => (Normal tt, s)
  | Some f =>
      (f st,
       {| now := now s; inflight := inflight s; timers := timers s;
          promise := promise s; fetches := fetches s;
          returned_at := returned_at s; observed := observed s;
          progress_calls := progress_calls s ++ [st] |})
  end.

(** [checkStatus], up to its [await]: the request goes out. *)
Definition checkStatus_call (s : Loop) : Loop :=
  {| now := now s; inflight := S (inflight s); timers := timers s;
     promise := promise s;
     fetches := fetches s ++ [(now s, getJobStatus_request env jobId)];
     returned_at := returned_at s; observed := observed s;
     progress_calls := progress_calls s |}.

(** [checkStatus], from its [await] on. *)
Definition checkStatus_resume (r : Reply JobStatus) : M unit :=
  try_catch
    (st ← await_getJobStatus r;
     _ ← call_onProgress st;
     if Status_eqb (status st) completed then
       resolve st
     else if Status_eqb (status st) failed then
       reject (Error (or_default (error st) "Job failed"))
     else
       setTimeout_checkStatus host interval)
    (fun error => reject error).

(** The tasks of the event loop. *)
Inductive Event : Type :=
| Fire (d : Z)                           (* the timer due at [d] fires *)
| Arrive (t : Z) (r : Reply JobStatus).  (* an awaited call ends at [t] *)

(** One task.  [None]: the task cannot happen here (no such timer, an
    earlier timer still pending, nothing awaited, time running
    backwards). *)
Definition step (s : Loop) (ev : Event) : option Loop :=
  match ev with
  | Fire d =>
      if bool_decide (d ∈ timers s)
         && forallb (fun d' => (d <=? d')%Z) (timers s)
         && (now s <=? d)%Z
      then
        Some (checkStatus_call
                {| now := d; inflight := inflight s;
                   timers := remove_first d (timers s);
                   promise := promise s; fetches := fetches s;
                   returned_at := returned_at s; observed := observed s;
                   progress_calls := progress_calls s |})
      else None
  | Arrive t r =>
      match inflight s with
      | O => None
      | S n =>
          if (now s <=? t)%Z && forallb (fun d' => (t <=? d')%Z) (timers s)
          then
            Some (snd (checkStatus_resume r
                {| now := t; inflight := n; timers := timers s;
                   promise := promise s; fetches := fetches s;
                   returned_at := returned_at s ++ [t];
                   observed := observed s;
                   progress_calls := progress_calls s |}))
          else None
      end
  end.

Fixpoint run (s : Loop) (evs : list Event) : option Loop :=
  match evs with
  | [] => Some s
  | ev :: evs' =>
      match step s ev with
      | Some s' => run s' evs'
      | None => None
      end
  end.

(** [pollJobStatus(jobId, onProgress, intervalMs)] called at time [t0]:
    the executor of the new promise calls [checkStatus] at once. *)
Definition pollJobStatus (t0 : Z) : Loop :=
  checkStatus_call
    {| now := t0; inflight := 0; timers := []; promise := None;
       fetches := []; returned_at := []; observed := [];
       progress_calls := [] |}.

(** The delay of the timer that [setTimeout(checkStatus, intervalMs)] sets. *)
Definition delay : Z := timer_delay host interval.

(** [onProgress], if given, returns normally on [st]. *)
Definition callback_returns (st : JobStatus) : Prop :=
  match onProgress with
  | Some f => f st = Normal tt
  | None => True
  end.

(** What holds of the loop after every task. *)
Record Inv (s : Loop) : Prop := {
  inv_single : (inflight s + length (timers s) <= 1)%nat;
  inv_pending :
    promise s = None <-> (inflight s + length (timers s) = 1)%nat;
  inv_reads :
    length (fetches s) = (length (returned_at s) + inflight s)%nat;
  inv_gap : forall k i c,
    (fetches s).*1 !! S k = Some i -> returned_at s !! k = Some c ->
    i = c + delay;
  inv_timer : forall d,
    d ∈ timers s -> last (returned_at s) = Some (d - delay) /\ now s <= d;
  inv_progress :
    progress_calls s = if onProgress is Some _ then observed s else []
}.

End Call.

(** What else holds of a call after every task: where its requests go,
    and what its promise can resolve with. *)
Record Sound (env : option string) (jobId : string) (s : Loop) : Prop := {
  sound_requests : forall rq,
    rq ∈ (fetches s).*2 -> rq = getJobStatus_request env jobId;
  sound_resolved : forall st,
    promise s = Some (Normal st) ->
    status st = completed /\ last (observed s) = Some st;
  sound_observed : (length (observed s) <= length (returned_at s))%nat
}.

End PollJobStatus.

(** ** The status poller of the page, [src/pages/Generate.tsx]

    The effect of the component calls [pollStatus] once and then from a
    [setInterval]; its cleanup clears that interval.  A page holds the React
    state, the variable [pollInterval], the interval timers that are active
    and the [getJobStatus] calls that are awaited. *)
Module Generate.
Import Api.

Inductive ProcessingStage : Type :=
| stage_analyzing | stage_roasting | stage_generating | stage_complete.

Record Page : Type := {
  now : Z;                                   (* clock, in ms *)
  cleanup : bool;                            (* the effect returned a cleanup not yet run *)
  inflight : nat;                            (* getJobStatus calls awaited *)
  intervals : list (positive * Z);           (* active setInterval timers: handle, next due time *)
  next_handle : positive;                    (* the handle the next timer gets *)
  pollInterval : option positive;            (* the variable; [None]: not assigned yet *)
  processingStage : option ProcessingStage;  (* [None]: null *)
  videoUrl : option string;
  error_state : option string;
  toasts : list Toast;                       (* oldest first *)
  navigated : list string;                   (* calls of navigate, oldest first *)
  fetches : list (Z * Request);              (* every fetch and when, oldest first *)
  console : list Exn;                        (* console.error, oldest first *)
  uncaught : list Exn                        (* exceptions that escaped a task *)
}.

Abbreviation M := (Js Page).

Definition setProcessingStage (v : option ProcessingStage) : M unit := fun s =>
  (Normal tt,
   {| now := now s; cleanup := cleanup s; inflight := inflight s;
      intervals := intervals s; next_handle := next_handle s;
      pollInterval := pollInterval s; processingStage := v;
      videoUrl := videoUrl s; error_state := error_state s;
      toasts := toasts s; navigated := navigated s; fetches := fetches s;
      console := console s; uncaught := uncaught s |}).

Definition setVideoUrl (v : option string) : M unit := fun s =>
  (Normal tt,
   {| now := now s; cleanup := cleanup s; inflight := inflight s;
      intervals := intervals s; next_handle := next_handle s;
      pollInterval := pollInterval s; processingStage := processingStage s;
      videoUrl := v; error_state := error_state s;
      toasts := toasts s; navigated := navigated s; fetches := fetches s;
      console := console s; uncaught := uncaught s |}).

Definition setError (v : option string) : M unit := fun s =>
  (Normal tt,
   {| now := now s; cleanup := cleanup s; inflight := inflight s;
      intervals := intervals s; next_handle := next_handle s;
      pollInterval := pollInterval s; processingStage := processingStage s;
      videoUrl := videoUrl s; error_state := v;
      toasts := toasts s; navigated := navigated s; fetches := fetches s;
      console := console s; uncaught := uncaught s |}).

Definition toast (t : Toast) : M unit := fun s =>
  (Normal tt,
   {| now := now s; cleanup := cleanup s; inflight := inflight s;
      intervals := intervals s; next_handle := next_handle s;
      pollInterval := pollInterval s; processingStage := processingStage s;
      videoUrl := videoUrl s; error_state := error_state s;
      toasts := toasts s ++ [t]; navigated := navigated s;
      fetches := fetches s; console := console s; uncaught := uncaught s |}).

Definition navigate (to : string) : M unit := fun s =>
  (Normal tt,
   {| now := now s; cleanup := cleanup s; inflight := inflight s;
      intervals := intervals s; next_handle := next_handle s;
      pollInterval := pollInterval s; processingStage := processingStage s;
      videoUrl := videoUrl s; error_state := error_state s;
      toasts := toasts s; navigated := navigated s ++ [to];
      fetches := fetches s; console := console s; uncaught := uncaught s |}).

Definition console_error (e : Exn) : M unit := fun s =>
  (Normal tt,
   {| now := now s; cleanup := cleanup s; inflight := inflight s;
      intervals := intervals s; next_handle := next_handle s;
      pollInterval := pollInterval s; processingStage := processingStage s;
      videoUrl := videoUrl s; error_state := error_state s;
      toasts := toasts s; navigated := navigated s; fetches := fetches s;
      console := console s ++ [e]; uncaught := uncaught s |}).

(** [clearInterval(h)]: the timer with handle [h] is no longer active. *)
Definition clearInterval (h : positive) : M unit := fun s =>
  (Normal tt,
   {| now := now s; cleanup := cleanup s; inflight := inflight s;
      intervals := filter (fun tm => negb (Pos.eqb (fst tm) h)) (intervals s);
      next_handle := next_handle s;
      pollInterval := pollInterval s; processingStage := processingStage s;
      videoUrl := videoUrl s; error_state := error_state s;
      toasts := toasts s; navigated := navigated s; fetches := fetches s;
      console := console s; uncaught := uncaught s |}).

(** [if (pollInterval) { clearInterval(pollInterval); }]: a timer handle
    is truthy, the unassigned variable is not. *)
Definition clear_pollInterval : M unit := fun s =>
  match pollInterval s with
  | Some h => clearInterval h s
  | None => (Normal tt, s)
  end.

(** [pollInterval = setInterval(pollStatus, ms)]. *)
Definition set_pollInterval (ms : Z) : M unit := fun s =>
  (Normal tt,
   {| now := now s; cleanup := cleanup s; inflight := inflight s;
      intervals := intervals s ++ [(next_handle s, now s + Z.max 0 ms)];
      next_handle := Pos.succ (next_handle s);
      pollInterval := Some (next_handle s);
      processingStage := processingStage s;
      videoUrl := videoUrl s; error_state := error_state s;
      toasts := toasts s; navigated := navigated s; fetches := fetches s;
      console := console s; uncaught := uncaught s |}).

Section Mounted.
(** The build-time environment and the [jobId] of the search parameters,
    once the effect has found that it is there. *)
Context (env : option string) (jobId : string).

(** [pollStatus], up to its [await]: the request goes out. *)
Definition pollStatus_call : M unit := fun s =>
  (Normal tt,
   {| now := now s; cleanup := cleanup s; inflight := S (inflight s);
      intervals := intervals s; next_handle := next_handle s;
      pollInterval := pollInterval s; processingStage := processingStage s;
      videoUrl := videoUrl s; error_state := error_state s;
      toasts := toasts s; navigated := navigated s;
      fetches := fetches s ++ [(now s, getJobStatus_request env jobId)];
      console := console s; uncaught := uncaught s |}).

(** [pollStatus], from its [await] on. *)
Definition pollStatus_resume (r : Reply JobStatus) : M unit :=
  try_catch
    (st ← (fun s => (getJobStatus_result r, s)) : M JobStatus;
     match status st with
     | analyzing => setProcessingStage (Some stage_analyzing)
     | roasting => setProcessingStage (Some stage_roasting)
     | generating => setProcessingStage (Some stage_generating)
     | completed =>
         _ ← setProcessingStage (Some stage_complete);
         _ ← setVideoUrl (Some (getVideoUrl env jobId));
         _ ← clear_pollInterval;
         toast (toast_success "Your roast video is ready!")
     | failed =>
         _ ← setError (Some (or_default (error st) "Processing failed"));
         _ ← toast (toast_error (or_default (error st) "Processing failed"));
         clear_pollInterval
     | pending => mret tt
     end)
    (fun err =>
       _ ← console_error err;
       _ ← setError (Some (match err with
                           | Error message => message        (* err instanceof Error *)
                           | NonError _ => "Failed to get status"
                           end));
       _ ← toast (toast_error "Failed to get processing status");
       clear_pollInterval).

(** The tasks of the event loop. *)
Inductive Event : Type :=
| Tick (h : positive)                    (* the interval timer [h] fires *)
| Arrive (t : Z) (r : Reply JobStatus)   (* an awaited call ends at [t] *)
| Unmount (t : Z).                       (* React runs the cleanup at [t] *)

(** A task that ends by throwing leaves the exception in [uncaught]. *)
Definition task (m : M unit) (s : Page) : Page :=
  match m s with
  | (Normal _, s') => s'
  | (Throw e, s') =>
      {| now := now s'; cleanup := cleanup s'; inflight := inflight s';
         intervals := intervals s'; next_handle := next_handle s';
         pollInterval := pollInterval s'; processingStage := processingStage s';
         videoUrl := videoUrl s'; error_state := error_state s';
         toasts := toasts s'; navigated := navigated s'; fetches := fetches s';
         console := console s'; uncaught := uncaught s' ++ [e] |}
  end.

(** The clock moves to [t]. *)
Definition at_time (t : Z) (s : Page) : Page :=
  {| now := t; cleanup := cleanup s; inflight := inflight s;
     intervals := intervals s; next_handle := next_handle s;
     pollInterval := pollInterval s; processingStage := processingStage s;
     videoUrl := videoUrl s; error_state := error_state s;
     toasts := toasts s; navigated := navigated s; fetches := fetches s;
     console := console s; uncaught := uncaught s |}.

(** The interval [h] is set to fire next at [d]. *)
Definition reschedule (h : positive) (d : Z) (s : Page) : Page :=
  {| now := now s; cleanup := cleanup s; inflight := inflight s;
     intervals :=
       map (fun tm => if Pos.eqb (fst tm) h then (h, d) else tm) (intervals s);
     next_handle := next_handle s;
     pollInterval := pollInterval s; processingStage := processingStage s;
     videoUrl := videoUrl s; error_state := error_state s;
     toasts := toasts s; navigated := navigated s; fetches := fetches s;
     console := console s; uncaught := uncaught s |}.

(** When the interval [h] fires next, if it is active. *)
Definition due (h : positive) (s : Page) : option Z :=
  snd <$> List.find (fun tm => Pos.eqb (fst tm) h) (intervals s).

(** No timer is due before [t]. *)
Definition none_due_before (t : Z) (s : Page) : bool :=
  forallb (fun tm => (t <=? snd tm)%Z) (intervals s).

(** The period of the interval, [setInterval(pollStatus, 2000)]. *)
Definition period : Z := 2000.

(** One task.  [None]: the task cannot happen here (no such timer, an
    earlier timer still pending, nothing awaited, no cleanup to run, time
    running backwards). *)
Definition step (s : Page) (ev : Event) : option Page :=
  match ev with
  | Tick h =>
      match due h s with
      | Some d =>
          if none_due_before d s && (now s <=? d)%Z
          then Some (task pollStatus_call
                       (reschedule h (d + period) (at_time d s)))
          else None
      | None => None
      end
  | Arrive t r =>
      match inflight s with
      | O => None
      | S n =>
          if (now s <=? t)%Z && none_due_before t s
          then
            Some (task (pollStatus_resume r)
              {| now := t; cleanup := cleanup s; inflight := n;
                 intervals := intervals s; next_handle := next_handle s;
                 pollInterval := pollInterval s;
                 processingStage := processingStage s;
                 videoUrl := videoUrl s; error_state := error_state s;
                 toasts := toasts s; navigated := navigated s;
                 fetches := fetches s; console := console s;
                 uncaught := uncaught s |})
          else None
      end
  | Unmount t =>
      if cleanup s && (now s <=? t)%Z && none_due_before t s
      then
        Some (task clear_pollInterval
          {| now := t; cleanup := false; inflight := inflight s;
             intervals := intervals s; next_handle := next_handle s;
             pollInterval := pollInterval s;
             processingStage := processingStage s;
             videoUrl := videoUrl s; error_state := error_state s;
             toasts := toasts s; navigated := navigated s;
             fetches := fetches s; console := console s;
             uncaught := uncaught s |})
      else None
  end.

Fixpoint run (s : Page) (evs : list Event) : option Page :=
  match evs with
  | [] => Some s
  | ev :: evs' =>
      match step s ev with
      | Some s' => run s' evs'
      | None => None
      end
  end.

(** What holds of the page after every task: the only interval timers
    that are active are those whose handle [pollInterval] holds, and no
    task has thrown. *)
Record Inv (p : Page) : Prop := {
  inv_handle : forall tm, tm ∈ intervals p -> pollInterval p = Some (fst tm);
  inv_uncaught : uncaught p = []
}.

(** The message the [catch] of [pollStatus] puts in the error state. *)
Definition shown_error (err : Exn) : string :=
  match err with
  | Error message => message
  | NonError _ => "Failed to get status"
  end.

End Mounted.

(** The component as first rendered at time [t0], before its effect. *)
Definition rendered (t0 : Z) : Page :=
  {| now := t0; cleanup := false; inflight := 0; intervals := [];
     next_handle := 1%positive; pollInterval := None;
     processingStage := Some stage_analyzing; videoUrl := None;
     error_state := None; toasts := []; navigated := []; fetches := [];
     console := []; uncaught := [] |}.

(** [!jobId] for [searchParams.get("jobId")]: [null] and the empty string
    are falsy. *)
Definition no_jobId (q : option string) : bool :=
  match q with
  | None => true
  | Some j => String.eqb j ""
  end.

(** The effect, run at [t0] with the search parameter [q]. *)
Definition mount (env : option string) (q : option string) (t0 : Z) : Page :=
  if no_jobId q then
    task (_ ← toast (toast_error "No job ID provided"); navigate "/")
         (rendered t0)
  else
    let jobId := default "" q in
    let s := task (_ ← pollStatus_call env jobId; set_pollInterval period)
                  (rendered t0) in
    {| now := now s; cleanup := true; inflight := inflight s;
       intervals := intervals s; next_handle := next_handle s;
       pollInterval := pollInterval s; processingStage := processingStage s;
       videoUrl := videoUrl s; error_state := error_state s;
       toasts := toasts s; navigated := navigated s; fetches := fetches s;
       console := console s; uncaught := uncaught s |}.

(** What else holds of a page mounted at [t0] with [jobId] after every
    task: when and where its requests went, when its interval fires next,
    and what it shows. *)
Record Steady (env : option string) (jobId : string) (t0 : Z) (p : Page)
    : Prop := {
  steady_rate : forall k at_k,
    (fetches p).*1 !! k = Some at_k -> at_k = t0 + period * Z.of_nat k;
  steady_requests : forall rq,
    rq ∈ (fetches p).*2 -> rq = getJobStatus_request env jobId;
  steady_timer :
    intervals p = [] \/
    intervals p
      = [(1%positive, t0 + period * Z.of_nat (length (fetches p)))];
  steady_clock : forall tm, tm ∈ intervals p -> now p <= snd tm;
  steady_video :
    videoUrl p = None \/
    (videoUrl p = Some (getVideoUrl env jobId) /\
     toast_success "Your roast video is ready!" ∈ toasts p);
  steady_stage : processingStage p <> None;
  steady_done :
    videoUrl p <> None \/ error_state p <> None -> intervals p = []
}.

End Generate.


(** ** The upload section and the page that holds its state

    [UploadSection] receives [uploadedFile] and [backgroundVideo] from the
    [Index] page, whose [handleFileUpload] and [handleBackgroundChange] set
    them; both components are one view here. *)
Module UploadSection.
Import Api.

Record View : Type := {
  uploadedFile : option File;      (* [None]: null *)
  backgroundVideo : string;
  isDragging : bool;
  isUploading : bool;
  toasts : list Toast;             (* oldest first *)
  requests : list Request;         (* every fetch, oldest first *)
  navigated : list string;         (* calls of navigate, oldest first *)
  console : list Exn               (* console.error, oldest first *)
}.

Abbreviation M := (Js View).

(** The background choices the section offers, in the order it shows them. *)
Definition backgrounds : list string :=
  ["subway_surfer"; "minecraft"; "fortnite"; "templerun"; "satisfying"].

(** The ceiling the section announces ([Supported format: PDF (Max 10MB)]),
    in bytes; the section itself shows a size as [size / 1024 / 1024] MB. *)
Definition announced_max_size : Z := 10 * 1024 * 1024.

(** The view as [Index] first renders it. *)
Definition initial : View :=
  {| uploadedFile := None; backgroundVideo := "subway_surfer";
     isDragging := false; isUploading := false; toasts := [];
     requests := []; navigated := []; console := [] |}.

(** [onFileUpload], that is [handleFileUpload] of [Index]. *)
Definition onFileUpload (file : File) : M unit := fun v =>
  (Normal tt,
   {| uploadedFile := Some file; backgroundVideo := backgroundVideo v;
      isDragging := isDragging v; isUploading := isUploading v;
      toasts := toasts v; requests := requests v;
      navigated := navigated v; console := console v |}).

Definition setIsDragging (b : bool) : M unit := fun v =>
  (Normal tt,
   {| uploadedFile := uploadedFile v; backgroundVideo := backgroundVideo v;
      isDragging := b; isUploading := isUploading v;
      toasts := toasts v; requests := requests v;
      navigated := navigated v; console := console v |}).

Definition setIsUploading (b : bool) : M unit := fun v =>
  (Normal tt,
   {| uploadedFile := uploadedFile v; backgroundVideo := backgroundVideo v;
      isDragging := isDragging v; isUploading := b;
      toasts := toasts v; requests := requests v;
      navigated := navigated v; console := console v |}).

Definition toast (t : Toast) : M unit := fun v =>
  (Normal tt,
   {| uploadedFile := uploadedFile v; backgroundVideo := backgroundVideo v;
      isDragging := isDragging v; isUploading := isUploading v;
      toasts := toasts v ++ [t]; requests := requests v;
      navigated := navigated v; console := console v |}).

Definition fetch (rq : Request) : M unit := fun v =>
  (Normal tt,
   {| uploadedFile := uploadedFile v; backgroundVideo := backgroundVideo v;
      isDragging := isDragging v; isUploading := isUploading v;
      toasts := toasts v; requests := requests v ++ [rq];
      navigated := navigated v; console := console v |}).

Definition navigate (to : string) : M unit := fun v =>
  (Normal tt,
   {| uploadedFile := uploadedFile v; backgroundVideo := backgroundVideo v;
      isDragging := isDragging v; isUploading := isUploading v;
      toasts := toasts v; requests := requests v;
      navigated := navigated v ++ [to]; console := console v |}).

Definition console_error (e : Exn) : M unit := fun v =>
  (Normal tt,
   {| uploadedFile := uploadedFile v; backgroundVideo := backgroundVideo v;
      isDragging := isDragging v; isUploading := isUploading v;
      toasts := toasts v; requests := requests v;
      navigated := navigated v; console := console v ++ [e] |}).

(** [file.type === "application/pdf" || file.name.endsWith(".pdf")] *)
Definition is_pdf (file : File) : bool :=
  String.eqb (type file) "application/pdf" || endsWith (name file) ".pdf".

(** The body both handlers share once they hold [files]: [None] is a null
    list, and [files[0]] is the head. *)
Definition take_first (files : option (list File)) : M unit :=
  match files with
  | Some (file :: _) =>
      if is_pdf file then
        _ ← onFileUpload file;
        toast (toast_success "Resume uploaded successfully!")
      else
        toast (toast_error "Please upload a PDF file")
  | _ => mret tt
  end.

Definition handleDrop (files : option (list File)) : M unit :=
  _ ← setIsDragging false;
  take_first files.

Definition handleFileInput (files : option (list File)) : M unit :=
  take_first files.

Section Submit.
Context (env : option string).

(** [handleGenerateRoast], up to its [await]. *)
Definition handleGenerateRoast_call : M unit := fun v =>
  match uploadedFile v with
  | None => toast (toast_error "No file uploaded") v
  | Some file =>
      (_ ← setIsUploading true;
       fetch (uploadResume_request env file (Some (backgroundVideo v)))) v
  end.

(** [handleGenerateRoast], from its [await] on. *)
Definition handleGenerateRoast_resume (r : Reply UploadResponse) : M unit :=
  try_catch
    (response ← (fun v => (uploadResume_result r, v)) : M UploadResponse;
     _ ← toast (toast_success "Upload successful! Generating roast...");
     navigate ("/generate?jobId=" ++ upload_job_id response))
    (fun error =>
       _ ← console_error error;
       _ ← toast (toast_error (match error with
                               | Error message => message
                               | NonError _ => "Failed to upload resume"
                               end));
       setIsUploading false).

End Submit.

(** [handleDrag], given the type of the drag event. *)
Definition handleDrag (type : string) : M unit :=
  if String.eqb type "dragenter" || String.eqb type "dragover" then
    setIsDragging true
  else if String.eqb type "dragleave" then
    setIsDragging false
  else mret tt.

(** [onRemoveFile], that is [handleRemoveFile] of [Index]. *)
Definition onRemoveFile : M unit := fun v =>
  (Normal tt,
   {| uploadedFile := None; backgroundVideo := backgroundVideo v;
      isDragging := isDragging v; isUploading := isUploading v;
      toasts := toasts v; requests := requests v;
      navigated := navigated v; console := console v |}).

(** [onBackgroundChange], that is [handleBackgroundChange] of [Index]. *)
Definition onBackgroundChange (background : string) : M unit := fun v =>
  (Normal tt,
   {| uploadedFile := uploadedFile v; backgroundVideo := background;
      isDragging := isDragging v; isUploading := isUploading v;
      toasts := toasts v; requests := requests v;
      navigated := navigated v; console := console v |}).

(** *** What the user can do with the section

    The section renders either the drop card (while no file is held) or
    the file card with the background buttons and the generate button; the
    buttons are those of [backgrounds], and the generate button is disabled
    while [isUploading].  Once the page has navigated away the section is
    gone. *)
Inductive UiEvent : Type :=
| Drag (type : string)                    (* a drag event on the drop card *)
| Drop (files : option (list File))       (* a drop on the drop card *)
| FileInput (files : option (list File))  (* a change of the file input *)
| RemoveFile                              (* the X button *)
| BackgroundChange (bg : string)          (* one of the background buttons *)
| GenerateRoast                           (* the generate button *)
| UploadReply (r : Reply UploadResponse). (* the awaited uploadResume ends *)

(** The view and the number of [uploadResume] calls that are awaited. *)
Record Ui : Type := {
  view : View;
  awaiting : nat
}.

Definition has_file (v : View) : bool :=
  if uploadedFile v is Some _ then true else false.

Section Flow.
Context (env : option string).

(** One event.  [None]: the control is not rendered, or disabled, or
    nothing is awaited. *)
Definition ui_step (u : Ui) (ev : UiEvent) : option Ui :=
  let v := view u in
  if negb (bool_decide (navigated v = [])) then None else
  match ev with
  | Drag type =>
      if has_file v then None
      else Some {| view := (handleDrag type v).2; awaiting := awaiting u |}
  | Drop files =>
      if has_file v then None
      else Some {| view := (handleDrop files v).2; awaiting := awaiting u |}
  | FileInput files =>
      if has_file v then None
      else Some {| view := (handleFileInput files v).2; awaiting := awaiting u |}
  | RemoveFile =>
      if has_file v
      then Some {| view := (onRemoveFile v).2; awaiting := awaiting u |}
      else None
  | BackgroundChange bg =>
      if has_file v && bool_decide (bg ∈ backgrounds)
      then Some {| view := (onBackgroundChange bg v).2; awaiting := awaiting u |}
      else None
  | GenerateRoast =>
      if has_file v && negb (isUploading v)
      then Some {| view := (handleGenerateRoast_call env v).2;
                   awaiting := S (awaiting u) |}
      else None
  | UploadReply r =>
      match awaiting u with
      | O => None
      | S n => Some {| view := (handleGenerateRoast_resume r v).2;
                       awaiting := n |}
      end
  end.

Fixpoint ui_run (u : Ui) (evs : list UiEvent) : option Ui :=
  match evs with
  | [] => Some u
  | ev :: evs' =>
      match ui_step u ev with
      | Some u' => ui_run u' evs'
      | None => None
      end
  end.

(** The section as [Index] first shows it. *)
Definition ui_initial : Ui := {| view := initial; awaiting := 0 |}.

(** What holds of the section after every event. *)
Record UiInv (u : Ui) : Prop := {
  ui_background : backgroundVideo (view u) ∈ backgrounds;
  ui_file : forall f, uploadedFile (view u) = Some f -> is_pdf f = true;
  ui_requests : forall rq, rq ∈ requests (view u) ->
    exists f bg, rq = uploadResume_request env f (Some bg)
                 /\ is_pdf f = true /\ bg ∈ backgrounds;
  ui_single : (awaiting u <= 1)%nat;
  ui_busy : awaiting u = 1%nat -> isUploading (view u) = true;
  ui_gone : navigated (view u) <> [] -> awaiting u = 0%nat
}.

End Flow.

End UploadSection.

(** ** The processing section, [ProcessingSection] *)
Module ProcessingSection.
Import Generate.

Record StageItem : Type := {
  id : string;
  title : string;
  description : string
}.

Definition stages : list StageItem :=
  [ {| id := "analyzing"; title := "Analyzing Resume";
       description := "Reading through your experience..." |};
    {| id := "roasting"; title := "Generating Roast";
       description := "AI is cooking up some heat..." |};
    {| id := "generating"; title := "Creating Video";
       description := "Animating your roast..." |} ].

(** The string a stage is in the source. *)
Definition stage_name (stage : ProcessingStage) : string :=
  match stage with
  | stage_analyzing => "analyzing"
  | stage_roasting => "roasting"
  | stage_generating => "generating"
  | stage_complete => "complete"
  end.

(** [l.findIndex(p)]: [-1] when no element satisfies [p]. *)
Fixpoint findIndex {A} (p : A -> bool) (l : list A) : Z :=
  match l with
  | [] => -1
  | x :: l' =>
      if p x then 0
      else let i := findIndex p l' in if (i <? 0)%Z then -1 else i + 1
  end.

(** One card as it is drawn: [spinner] for the spinning loader in place of
    the icon, [tick] for the check mark. *)
Record Card : Type := {
  item : StageItem;
  isActive : bool;
  isComplete : bool;
  spinner : bool;
  tick : bool
}.

(** What the section draws: whether the heading announces that the roast
    is ready, and the cards. *)
Record Drawn : Type := {
  ready : bool;
  cards : list Card
}.

(** The component: [None] when it returns null. *)
Definition ProcessingSection (stage : option ProcessingStage) : option Drawn :=
  match stage with
  | None => None
  | Some stage =>
      let currentIndex :=
        findIndex (fun s => String.eqb (id s) (stage_name stage)) stages in
      let is_complete_stage := String.eqb (stage_name stage) "complete" in
      Some {| ready := is_complete_stage;
              cards :=
                if negb is_complete_stage then
                  imap (fun index stageItem =>
                          let isActive := (Z.of_nat index =? currentIndex)%Z in
                          let isComplete := (Z.of_nat index <? currentIndex)%Z in
                          {| item := stageItem;
                             isActive := isActive;
                             isComplete := isComplete;
                             spinner := isActive;
                             tick := isComplete |})
                       stages
                else [] |}
  end.

End ProcessingSection.

(** ** The result section, [src/components/ResultSection.tsx] *)
Module ResultSection.

(** Whether the component draws anything: [if (!videoUrl) return null]. *)
Definition shown (videoUrl : option string) : bool :=
  match videoUrl with
  | None => false
  | Some u => negb (String.eqb u "")
  end.

End ResultSection.

(** ** The upload endpoint of the backend

    The front end posts to [/api/upload]; the server that answers is not
    among the sources. *)
Module UploadEndpoint.
Import Api.

(** Modelled from the spec: the job store of the backend (sections 3 and
    4.1; the server is missing from the sources), as the records of the
    jobs created so far, oldest first. *)
Definition JobStore : Type := list JobStatus.

Section Backend.
(** What the spec leaves open: which documents are of a supported format,
    the size ceiling in bytes (10 MB in its example), which values make up
    the enumerated set of backgrounds, the body of the response that
    signals a validation error, the opaque id a new job is given and the
    messages of a new job. *)
Context (supported : File -> bool) (ceiling : Z)
        (valid_background : string -> bool)
        (complaint : File -> string -> ErrorBody)
        (fresh : JobStore -> string)
        (accepted_message pending_message : string).

(** Modelled from the spec: the validation of a submission (sections 6
    and 7; the upload endpoint is missing from the sources).  A document
    that is not of a supported format or exceeds the size ceiling, or a
    background outside the enumerated set, is a validation error. *)
Definition valid (document : File) (background : string) : bool :=
  supported document && (size document <=? ceiling)%Z
  && valid_background background.

(** Modelled from the spec: the submit operation of the API (sections
    4.3, 6 and 7; the upload endpoint is missing from the sources).  A
    validation error is signalled at once, before a job is created, and
    never becomes a job state; a valid submission creates a job in the
    initial pending state and returns its id without waiting for any
    stage. *)
Definition submit (document : File) (background : string) (store : JobStore)
    : Reply UploadResponse * JobStore :=
  if valid document background then
    let id := fresh store in
    (HttpOk (Normal {| upload_job_id := id;
                       upload_message := accepted_message |}),
     store ++ [ {| job_id := id; status := pending; progress := 0;
                   message := pending_message; video_url := None;
                   roast_text := None; score := None; error := None |} ])%list
  else
    (HttpFail (Normal (complaint document background)), store).

End Backend.

End UploadEndpoint.

(** * Properties *)

(** ** The API client *)
Section ApiFacts.
Import Api.

(** C8. Called without a background, [uploadResume] sends the form field
    [background_video] with the value [subway_surfer], after the file, and
    that value is one of the background choices the upload section offers. *)
Theorem uploadResume_default_background (env : option string) (file : File) :
  body (uploadResume_request env file None)
    = [("file", FormFile file); ("background_video", FormText "subway_surfer")]
  /\ method (uploadResume_request env file None) = POST
  /\ "subway_surfer" ∈ UploadSection.backgrounds.
Proof.
  repeat split. unfold UploadSection.backgrounds. set_solver.
Qed.

Lemma string_length_app (a b : string) :
  String.length (a ++ b) = (String.length a + String.length b)%nat.
Proof. induction a as [|c a IH]; simpl; [reflexivity | now rewrite IH]. Qed.

(** C9. For every job id, [getVideoUrl] is the base URL of the API followed
    by [/api/video/] and the id: a total function of the id and of the
    build-time environment alone, so equal ids give equal URLs whatever
    the state of the job. *)
Theorem getVideoUrl_is_concatenation (env : option string) (jobId : string) :
  getVideoUrl env jobId = API_BASE_URL env ++ "/api/video/" ++ jobId
  /\ getVideoUrl None jobId = "http://localhost:8000/api/video/" ++ jobId
  /\ String.length (getVideoUrl env jobId)
     = (String.length (API_BASE_URL env) + 11 + String.length jobId)%nat.
Proof.
  repeat split. unfold getVideoUrl.
  rewrite !string_length_app. simpl. lia.
Qed.

(** C10. When the listing of backgrounds answers with success and reading
    [backgrounds] off the parsed body gives [undefined], the body having no
    such field, [getAvailableBackgrounds] returns the empty list. *)
Theorem getAvailableBackgrounds_missing_field (data : json) :
  get_prop data "backgrounds" = Normal None ->
  getAvailableBackgrounds_result (HttpOk (Normal data)) = Normal (JArr []).
Proof.
  intros Hprop. simpl. rewrite Hprop. reflexivity.
Qed.

Lemma getAvailableBackgrounds_missing_field_witness :
  get_prop (JObj {[ "count" := JNum 0 ]}) "backgrounds" = Normal None
  /\ getAvailableBackgrounds_result
       (HttpOk (Normal (JObj {[ "count" := JNum 0 ]}))) = Normal (JArr []).
Proof.
  split.
  - reflexivity.
  - apply getAvailableBackgrounds_missing_field. reflexivity.
Defined.

End ApiFacts.

(** ** [pollJobStatus] *)
Section PollFacts.
Import Api PollJobStatus.

Context (host : Host) (env : option string) (jobId : string)
        (onProgress : option (JobStatus -> Completion unit))
        (intervalMs : option Z).

#[local] Abbreviation step := (PollJobStatus.step host env jobId onProgress intervalMs).
#[local] Abbreviation run := (PollJobStatus.run host env jobId onProgress intervalMs).
#[local] Abbreviation start := (PollJobStatus.pollJobStatus env jobId).
#[local] Abbreviation delay := (PollJobStatus.delay host intervalMs).
#[local] Abbreviation Inv := (PollJobStatus.Inv host onProgress intervalMs).

Lemma delay_nonneg : 0 <= delay.
Proof.
  unfold PollJobStatus.delay, timer_delay. destruct host; [lia |].
  destruct (_ && _) eqn:Hrange; [| lia].
  apply andb_prop in Hrange as [Hlow _]. apply Z.leb_le in Hlow. lia.
Qed.

Lemma start_inv (t0 : Z) : Inv (start t0).
Proof.
  split; simpl; try lia.
  - split; [lia | reflexivity].
  - intros k i c Hk. destruct k; discriminate.
  - intros d Hd. inversion Hd.
  - destruct onProgress; reflexivity.
Qed.

(** With at most one timer, the one that fires is the only one. *)
Lemma sole_timer (d : Z) (l : list Z) (n : nat) :
  (n + length l <= 1)%nat -> d ∈ l -> l = [d] /\ n = 0%nat.
Proof.
  destruct l as [|x [|y l]]; simpl; intros Hlen Hin.
  - inversion Hin.
  - apply list_elem_of_singleton in Hin. subst. split; [reflexivity | lia].
  - lia.
Qed.

Lemma remove_first_sole (d : Z) : remove_first d [d] = [].
Proof. simpl. now rewrite Z.eqb_refl. Qed.

Lemma step_inv (s s' : Loop) (ev : Event) :
  Inv s -> step s ev = Some s' -> Inv s'.
Proof.
  destruct s as [nw fl tm pr fs rs ob pc].
  intros [Hsingle Hpending Hreads Hgap Htimer Hprog]; simpl in *.
  destruct ev as [d | t r]; simpl.
  - (* a timer fires *)
    match goal with
    | |- (if ?c then _ else _) = _ -> _ => destruct c eqn:Hen; [| discriminate]
    end.
    apply andb_prop in Hen as [Hen _]. apply andb_prop in Hen as [Hin _].
    apply bool_decide_eq_true in Hin.
    destruct (sole_timer d tm fl Hsingle Hin) as [-> ->].
    simpl. rewrite Z.eqb_refl.
    intros [= <-]. unfold checkStatus_call; simpl.
    destruct (Htimer d Hin) as [Hlast Hnow].
    split; simpl.
    + lia.
    + rewrite Hpending. simpl. lia.
    + rewrite length_app, Hreads. simpl. lia.
    + intros k i c Hi Hc. rewrite fmap_app in Hi. simpl in Hi.
      destruct (decide (S k < length fs)%nat) as [Hlt | Hge].
      * rewrite lookup_app_l in Hi by (now rewrite length_fmap).
        eauto.
      * assert (S k = length fs) as Hk.
        { apply lookup_lt_Some in Hi. rewrite length_app, length_fmap in Hi.
          simpl in Hi. lia. }
        rewrite lookup_app_r in Hi by (rewrite length_fmap; lia).
        rewrite length_fmap, Hk, Nat.sub_diag in Hi. simpl in Hi.
        injection Hi as <-.
        rewrite last_lookup in Hlast.
        replace (Init.Nat.pred (length rs)) with k in Hlast by lia.
        rewrite Hlast in Hc. injection Hc as <-. ring.
    + intros d' Hd'. inversion Hd'.
    + exact Hprog.
  - (* a reply arrives *)
    destruct fl as [| n]; [discriminate |].
    assert (n = 0%nat /\ tm = []) as [-> ->].
    { destruct tm; simpl in Hsingle; [split; [lia | reflexivity] | lia]. }
    simpl. destruct (nw <=? t)%Z eqn:Hle; simpl; [| discriminate].
    intros [= <-].
    assert (pr = None) as -> by (apply Hpending; reflexivity).
    simpl in Hreads.
    assert (forall k i c, fs.*1 !! S k = Some i -> (rs ++ [t])%list !! k = Some c ->
                          i = c + delay) as Hgap'.
    { intros k i c Hi Hc. apply lookup_lt_Some in Hi as Hlt.
      rewrite length_fmap in Hlt.
      rewrite lookup_app_l in Hc by lia. eauto. }
    assert (forall d' : Z, d' ∈ [t + delay] ->
              last (rs ++ [t]) = Some (d' - delay) /\ t <= d') as Htimer'.
    { intros d' Hd'. apply list_elem_of_singleton in Hd'. subst.
      rewrite last_snoc. pose proof delay_nonneg.
      split; [f_equal; ring | lia]. }
    unfold checkStatus_resume, try_catch, mbind, Js_bind, await_getJobStatus,
      call_onProgress.
    destruct (getJobStatus_result r) as [st | e]; simpl;
      [ destruct onProgress as [f |] eqn:Hcb; simpl;
        [ destruct (f st); simpl |];
        try (destruct (Status_eqb (status st) completed); simpl;
             [| destruct (Status_eqb (status st) failed); simpl]) |];
      (split; simpl;
       [ lia
       | split; intros Heq; first [discriminate | lia | reflexivity]
       | rewrite length_app; simpl; lia
       | exact Hgap'
       | first [exact Htimer' | intros d' Hd'; inversion Hd']
       | rewrite ?Hcb; now rewrite ?Hprog ]).
Qed.

Lemma run_inv (evs : list Event) (s s' : Loop) :
  Inv s -> run s evs = Some s' -> Inv s'.
Proof.
  revert s. induction evs as [| ev evs IH]; simpl; intros s Hs Hrun.
  - now injection Hrun as <-.
  - destruct (step s ev) as [s1 |] eqn:Hstep; [| discriminate].
    eapply IH; [eapply step_inv |]; eassumption.
Qed.

Lemma reachable_inv (t0 : Z) (evs : list Event) (s : Loop) :
  run (start t0) evs = Some s -> Inv s.
Proof. apply run_inv, start_inv. Qed.

(** Nothing awaited and no timer set: the event loop has no task left for
    this call. *)
Lemma idle_no_step (s : Loop) (ev : Event) :
  inflight s = 0%nat -> timers s = [] -> step s ev = None.
Proof.
  intros Hfl Htm. destruct ev as [d | t r]; simpl; rewrite ?Hfl, ?Htm.
  - rewrite bool_decide_eq_false_2; [reflexivity | intros Hin; inversion Hin].
  - reflexivity.
Qed.

Lemma idle_run (s s' : Loop) (evs : list Event) :
  inflight s = 0%nat -> timers s = [] -> run s evs = Some s' -> s' = s.
Proof.
  intros Hfl Htm. destruct evs as [| ev evs]; simpl.
  - now intros [= <-].
  - now rewrite idle_no_step.
Qed.

(** Once the promise is settled the call does nothing more. *)
Lemma settled_run (s s' : Loop) (evs : list Event) :
  Inv s -> promise s <> None -> run s evs = Some s' -> s' = s.
Proof.
  intros HI Hsettled. pose proof (inv_single _ _ _ s HI) as Hsingle.
  pose proof (inv_pending _ _ _ s HI) as Hpending.
  assert (inflight s = 0%nat /\ timers s = []) as [Hfl Htm].
  { destruct (inflight s) as [| n], (timers s) as [| d tm];
      simpl in *; try lia; try (split; reflexivity).
    - exfalso. apply Hsettled, Hpending. destruct tm; simpl in *; lia.
    - exfalso. apply Hsettled, Hpending. lia. }
  now apply idle_run.
Qed.

(** A reply can only arrive while exactly one call is awaited, no timer is
    set and the promise is pending. *)
Lemma arrive_enabled (s s' : Loop) (t : Z) (r : Reply JobStatus) :
  Inv s -> step s (Arrive t r) = Some s' ->
  inflight s = 1%nat /\ timers s = [] /\ promise s = None /\ now s <= t.
Proof.
  intros HI Hstep. pose proof (inv_single _ _ _ s HI) as Hsingle.
  pose proof (inv_pending _ _ _ s HI) as Hpending.
  simpl in Hstep. destruct (inflight s) as [| n]; [discriminate |].
  destruct (timers s) as [| d tm]; simpl in *; [| lia].
  assert (n = 0%nat) as -> by lia.
  destruct (now s <=? t)%Z eqn:Hle; [| discriminate].
  repeat split; try reflexivity; [apply Hpending; reflexivity | lia].
Qed.

(** What a reply makes of the loop, case by case. *)
Lemma arrive_result (s s' : Loop) (t : Z) (r : Reply JobStatus) :
  Inv s -> step s (Arrive t r) = Some s' ->
  fetches s' = fetches s /\ now s' = t /\ inflight s' = 0%nat /\
  returned_at s' = (returned_at s ++ [t])%list /\
  match getJobStatus_result r with
  | Throw e =>
      promise s' = Some (Throw e) /\ timers s' = [] /\
      observed s' = observed s /\ progress_calls s' = progress_calls s
  | Normal st =>
      observed s' = (observed s ++ [st])%list /\
      progress_calls s' =
        (if onProgress is Some _ then progress_calls s ++ [st]
         else progress_calls s)%list /\
      match (if onProgress is Some f then f st else Normal tt) with
      | Throw e => promise s' = Some (Throw e) /\ timers s' = []
      | Normal _ =>
          match status st with
          | completed => promise s' = Some (Normal st) /\ timers s' = []
          | failed =>
              promise s' = Some (Throw (Error (or_default (error st) "Job failed")))
              /\ timers s' = []
          | _ => promise s' = None /\ timers s' = [t + delay]
          end
      end
  end.
Proof.
  intros HI Hstep.
  destruct (arrive_enabled s s' t r HI Hstep) as (Hfl & Htm & Hpr & Hle).
  destruct s as [nw fl tm pr fs rs ob pc]; simpl in *. subst fl tm pr.
  apply Z.leb_le in Hle. rewrite Hle in Hstep. simpl in Hstep.
  injection Hstep as <-.
  unfold checkStatus_resume, try_catch, mbind, Js_bind, await_getJobStatus,
    call_onProgress.
  destruct (getJobStatus_result r) as [st | e]; simpl;
    [ destruct onProgress as [f |]; simpl;
      [ destruct (f st); simpl |];
      try (destruct (status st); simpl) |];
    repeat split; reflexivity.
Qed.

End PollFacts.

(** ** The poller of the page *)
Section GenerateFacts.
Import Api Generate.

Context (env : option string) (jobId : string).

#[local] Abbreviation gstep := (Generate.step env jobId).
#[local] Abbreviation grun := (Generate.run env jobId).

(** Clearing the interval whose handle [pollInterval] holds leaves no
    interval active. *)
Lemma clear_all (l : list (positive * Z)) (h : positive) :
  (forall tm, tm ∈ l -> Some h = Some (fst tm)) ->
  filter (fun tm => negb (Pos.eqb (fst tm) h)) l = [].
Proof.
  induction l as [| tm l IH]; intros Hall; [reflexivity |].
  rewrite filter_cons.
  assert (Some h = Some (fst tm)) as [= ->] by (apply Hall; left).
  rewrite Pos.eqb_refl. simpl.
  apply IH. intros tm' Htm'. apply Hall. now right.
Qed.

(** What the resumed [pollStatus] changes: never the requests, and of the
    timers only that the one of [pollInterval] is cleared, on [completed],
    on [failed] and on a failed read. *)
Lemma resume_effect (r : Reply JobStatus) (p : Page) :
  let p' := task (pollStatus_resume env jobId r) p in
  fetches p' = fetches p /\ inflight p' = inflight p /\
  pollInterval p' = pollInterval p /\ cleanup p' = cleanup p /\
  uncaught p' = uncaught p /\ now p' = now p /\
  (intervals p' = intervals p \/
   exists h, pollInterval p = Some h /\
     intervals p' = filter (fun tm => negb (Pos.eqb (fst tm) h)) (intervals p)) /\
  match getJobStatus_result r with
  | Throw e =>
      error_state p' = Some (shown_error e) /\
      (forall h, pollInterval p = Some h ->
         intervals p' = filter (fun tm => negb (Pos.eqb (fst tm) h)) (intervals p))
  | Normal st =>
      status st = completed \/ status st = failed ->
      forall h, pollInterval p = Some h ->
        intervals p' = filter (fun tm => negb (Pos.eqb (fst tm) h)) (intervals p)
  end.
Proof.
  destruct p as [nw cl fl iv nh pi ps vu es ts nv fs co un].
  unfold task, pollStatus_resume, try_catch, mbind, Js_bind, clear_pollInterval.
  destruct (getJobStatus_result r) as [st | e]; simpl.
  - destruct (status st); simpl; destruct pi as [h |]; simpl;
      repeat split; eauto;
      try (intros [Hst | Hst]; discriminate);
      try (intros _ h' [= <-]; reflexivity);
      try (intros _ h' [=]).
  - destruct pi as [h |]; simpl; repeat split; eauto;
      destruct e; try reflexivity;
      try (intros h' [= <-]; reflexivity); try (intros h' [=]).
Qed.

Lemma mount_inv (q : option string) (t0 : Z) : Inv (mount env q t0).
Proof.
  unfold mount. destruct (no_jobId q); split; simpl; try reflexivity.
  - intros tm Htm. inversion Htm.
  - intros tm Htm. apply list_elem_of_singleton in Htm. now subst.
Qed.

Lemma gstep_inv (p p' : Page) (ev : Event) :
  Inv p -> gstep p ev = Some p' -> Inv p'.
Proof.
  intros [Hhandle Huncaught]. destruct ev as [h | t r | t]; simpl.
  - destruct (due h p) as [d |]; [| discriminate].
    destruct (_ && _); [| discriminate]. intros [= <-].
    split; simpl; [| exact Huncaught].
    intros tm Htm. apply list_elem_of_fmap in Htm as (tm0 & -> & Htm0).
    rewrite (Hhandle tm0 Htm0).
    destruct (Pos.eqb (fst tm0) h) eqn:Heq; [| reflexivity].
    apply Pos.eqb_eq in Heq. now subst.
  - destruct (inflight p) as [| n]; [discriminate |].
    destruct (_ && _); [| discriminate]. intros [= <-].
    match goal with
    | |- Inv (task _ ?p0) =>
        destruct (resume_effect r p0) as (_ & _ & Hpi & _ & Hun & _ & Hiv & _)
    end.
    simpl in *. split.
    + rewrite Hpi. destruct Hiv as [-> | (h & _ & ->)]; [exact Hhandle |].
      intros tm Htm. apply list_elem_of_filter in Htm as [_ Htm]. auto.
    + now rewrite Hun.
  - destruct (_ && _); [| discriminate]. intros [= <-].
    unfold task, clear_pollInterval; simpl.
    destruct (pollInterval p) as [h |] eqn:Hpi; simpl; split; simpl;
      try exact Huncaught.
    + intros tm Htm. apply list_elem_of_filter in Htm as [_ Htm]. auto.
    + intros tm Htm. auto.
Qed.

Lemma grun_inv (evs : list Event) (p p' : Page) :
  Inv p -> grun p evs = Some p' -> Inv p'.
Proof.
  revert p. induction evs as [| ev evs IH]; simpl; intros p Hp Hrun.
  - now injection Hrun as <-.
  - destruct (gstep p ev) as [p1 |] eqn:Hstep; [| discriminate].
    eapply IH; [eapply gstep_inv |]; eassumption.
Qed.

(** With no interval active, no task issues a request or sets a timer. *)
Lemma no_interval_step (p p' : Page) (ev : Event) :
  intervals p = [] -> gstep p ev = Some p' ->
  intervals p' = [] /\ fetches p' = fetches p /\ uncaught p' = uncaught p.
Proof.
  intros Hiv. destruct ev as [h | t r | t]; simpl.
  - unfold due. rewrite Hiv. discriminate.
  - destruct (inflight p) as [| n]; [discriminate |].
    destruct (_ && _); [| discriminate]. intros [= <-].
    match goal with
    | |- context [task _ ?p0] =>
        destruct (resume_effect r p0) as (Hfs & _ & _ & _ & Hun & _ & Hiv' & _)
    end.
    rewrite Hfs, Hun.
    destruct Hiv' as [-> | (h & _ & ->)]; simpl; rewrite Hiv;
      repeat split; reflexivity.
  - destruct (_ && _); [| discriminate]. intros [= <-].
    unfold task, clear_pollInterval; simpl.
    destruct (pollInterval p) as [h |]; simpl; rewrite ?Hiv;
      repeat split; reflexivity.
Qed.

Lemma no_interval_run (evs : list Event) (p p' : Page) :
  intervals p = [] -> grun p evs = Some p' ->
  intervals p' = [] /\ fetches p' = fetches p /\ uncaught p' = uncaught p.
Proof.
  revert p. induction evs as [| ev evs IH]; simpl; intros p Hiv Hrun.
  - injection Hrun as <-. repeat split; assumption || reflexivity.
  - destruct (gstep p ev) as [p1 |] eqn:Hstep; [| discriminate].
    destruct (no_interval_step p p1 ev Hiv Hstep) as (Hiv1 & Hfs1 & Hun1).
    destruct (IH p1 Hiv1 Hrun) as (Hiv' & Hfs' & Hun').
    repeat split; congruence.
Qed.

End GenerateFacts.

(** ** The two polling loops, side by side *)
Section PollingClaims.
Import Api.

(** [pollJobStatus] awaits at most one status read at a time, and sets a
    timer for the next one only when none is awaited. *)
Lemma pollJobStatus_one_read_at_a_time
    (host : Host) (env : option string) (jobId : string)
    (onProgress : option (JobStatus -> Completion unit)) (intervalMs : option Z)
    (t0 : Z) (evs : list PollJobStatus.Event) (s : PollJobStatus.Loop) :
  PollJobStatus.run host env jobId onProgress intervalMs
    (PollJobStatus.pollJobStatus env jobId t0) evs = Some s ->
  (PollJobStatus.inflight s + length (PollJobStatus.timers s) <= 1)%nat.
Proof.
  intros Hrun. eapply PollJobStatus.inv_single, reachable_inv, Hrun.
Qed.

(** Nothing can stop [pollJobStatus] between two reads: while its timer
    is set, the only task the event loop holds for it is that timer, and
    the timer issues the next read. *)
Lemma pollJobStatus_has_no_stop
    (host : Host) (env : option string) (jobId : string)
    (onProgress : option (JobStatus -> Completion unit)) (intervalMs : option Z)
    (t0 d : Z) (evs : list PollJobStatus.Event) (ev : PollJobStatus.Event)
    (s s' : PollJobStatus.Loop) :
  PollJobStatus.run host env jobId onProgress intervalMs
    (PollJobStatus.pollJobStatus env jobId t0) evs = Some s ->
  PollJobStatus.timers s = [d] ->
  PollJobStatus.step host env jobId onProgress intervalMs s ev = Some s' ->
  ev = PollJobStatus.Fire d /\
  PollJobStatus.fetches s'
    = (PollJobStatus.fetches s ++ [(d, getJobStatus_request env jobId)])%list.
Proof.
  intros Hrun Htm Hstep.
  pose proof (pollJobStatus_one_read_at_a_time _ _ _ _ _ _ _ _ Hrun) as Hsingle.
  rewrite Htm in Hsingle. simpl in Hsingle.
  destruct ev as [d' | t r]; simpl in Hstep.
  - rewrite Htm in Hstep.
    destruct (bool_decide (d' ∈ [d])) eqn:Hin; [| discriminate].
    apply bool_decide_eq_true, list_elem_of_singleton in Hin. subst d'.
    destruct (_ && _); [| discriminate]. injection Hstep as <-.
    split; reflexivity.
  - destruct (PollJobStatus.inflight s); [discriminate | lia].
Qed.

(** C1. The poller of the page does not wait for a status read to return
    before it issues the next: with the first read still pending when the
    interval fires at 2000 ms, the page has two reads pending, issued at
    0 ms and at 2000 ms. *)
Theorem page_poller_overlapping_reads :
  exists p : Generate.Page,
    Generate.run None "job-1" (Generate.mount None (Some "job-1") 0)
      [Generate.Tick 1] = Some p
    /\ Generate.inflight p = 2%nat
    /\ (Generate.fetches p).*1 = [0; 2000].
Proof. eexists. repeat split. Qed.

(** C2. Once the cleanup of the effect has run, whatever the poller had
    observed before, no interval timer is left, no further status read is
    issued by anything that happens later, and no task throws. *)
Theorem unmount_stops_polling
    (env : option string) (jobId : string) (t0 t : Z)
    (evs evs' : list Generate.Event) (p p1 p' : Generate.Page) :
  Generate.run env jobId (Generate.mount env (Some jobId) t0) evs = Some p ->
  Generate.step env jobId p (Generate.Unmount t) = Some p1 ->
  Generate.run env jobId p1 evs' = Some p' ->
  Generate.intervals p1 = [] /\ Generate.fetches p1 = Generate.fetches p /\
  Generate.uncaught p1 = [] /\
  Generate.intervals p' = [] /\ Generate.fetches p' = Generate.fetches p /\
  Generate.uncaught p' = [].
Proof.
  intros Hrun Hstep Hrun'.
  pose proof (grun_inv env jobId evs _ _ (mount_inv env _ t0) Hrun) as HI.
  pose proof (gstep_inv env jobId _ _ _ HI Hstep) as HI1.
  assert (Generate.intervals p1 = [] /\
          Generate.fetches p1 = Generate.fetches p) as [Hiv1 Hfs1].
  { destruct HI as [Hhandle _]. simpl in Hstep.
    destruct (_ && _); [| discriminate]. injection Hstep as <-.
    unfold Generate.task, Generate.clear_pollInterval; simpl.
    destruct (Generate.pollInterval p) as [h |]; simpl.
    - split; [| reflexivity]. now apply clear_all.
    - split; [| reflexivity].
      destruct (Generate.intervals p) as [| tm l]; [reflexivity |].
      specialize (Hhandle tm). discriminate Hhandle. left. }
  destruct (no_interval_run env jobId evs' p1 p' Hiv1 Hrun') as (Hiv' & Hfs' & Hun').
  destruct HI1 as [_ Hun1].
  repeat split; congruence.
Qed.

Lemma unmount_stops_polling_witness :
  exists p1 p' : Generate.Page,
    Generate.step None "job-1" (Generate.mount None (Some "job-1") 0)
      (Generate.Unmount 500) = Some p1 /\
    Generate.run None "job-1" p1
      [Generate.Arrive 700 (HttpFail (Normal (with_detail (Some (of_string "Job not found")))))] = Some p' /\
    Generate.intervals p1 = [] /\
    Generate.fetches p1 = Generate.fetches (Generate.mount None (Some "job-1") 0) /\
    Generate.uncaught p1 = [] /\
    Generate.intervals p' = [] /\
    Generate.fetches p' = Generate.fetches (Generate.mount None (Some "job-1") 0) /\
    Generate.uncaught p' = [].
Proof.
  eexists _, _. split; [reflexivity |]. split; [reflexivity |].
  apply (unmount_stops_polling None "job-1" 0 500 []
           [Generate.Arrive 700 (HttpFail (Normal (with_detail (Some (of_string "Job not found")))))]
           _ _ _ eq_refl eq_refl eq_refl).
Defined.

(** C3. Whatever was observed before, a status that [getJobStatus] returns
    to a loop whose callback returns normally decides as follows: on
    [completed] the promise, pending until then, resolves with that status
    and no read is issued afterwards; on [failed] it rejects with an
    [Error] whose message is the [error] of the status (or [Job failed]
    when that is absent or empty) and no read is issued afterwards; on every
    other status it stays pending, and the timer it sets issues exactly
    one more read when it fires. *)
Theorem poll_settles_on_terminal_status
    (host : Host) (env : option string) (jobId : string)
    (onProgress : option (JobStatus -> Completion unit)) (intervalMs : option Z)
    (t0 t : Z) (evs : list PollJobStatus.Event) (st : JobStatus)
    (s s' : PollJobStatus.Loop) :
  PollJobStatus.run host env jobId onProgress intervalMs
    (PollJobStatus.pollJobStatus env jobId t0) evs = Some s ->
  PollJobStatus.step host env jobId onProgress intervalMs s
    (PollJobStatus.Arrive t (HttpOk (Normal st))) = Some s' ->
  PollJobStatus.callback_returns onProgress st ->
  PollJobStatus.promise s = None /\
  match status st with
  | completed =>
      PollJobStatus.promise s' = Some (Normal st) /\
      forall evs' s'',
        PollJobStatus.run host env jobId onProgress intervalMs s' evs' = Some s'' ->
        PollJobStatus.fetches s'' = PollJobStatus.fetches s
  | failed =>
      PollJobStatus.promise s'
        = Some (Throw (Error (or_default (error st) "Job failed"))) /\
      (forall d, error st = Some d -> d <> "" ->
         PollJobStatus.promise s' = Some (Throw (Error d))) /\
      forall evs' s'',
        PollJobStatus.run host env jobId onProgress intervalMs s' evs' = Some s'' ->
        PollJobStatus.fetches s'' = PollJobStatus.fetches s
  | _ =>
      PollJobStatus.promise s' = None /\
      PollJobStatus.fetches s' = PollJobStatus.fetches s /\
      exists s'',
        PollJobStatus.step host env jobId onProgress intervalMs s'
          (PollJobStatus.Fire (t + PollJobStatus.delay host intervalMs)) = Some s'' /\
        PollJobStatus.fetches s''
          = (PollJobStatus.fetches s
             ++ [(t + PollJobStatus.delay host intervalMs,
                  getJobStatus_request env jobId)])%list
  end.
Proof.
  intros Hrun Hstep Hcb.
  pose proof (reachable_inv _ _ _ _ _ _ _ _ Hrun) as HI.
  pose proof (step_inv _ _ _ _ _ _ _ _ HI Hstep) as HI'.
  destruct (arrive_enabled _ _ _ _ _ _ _ _ _ HI Hstep) as (_ & _ & Hpr & _).
  destruct (arrive_result _ _ _ _ _ _ _ _ _ HI Hstep)
    as (Hfs & Hnow & Hfl & _ & Hres).
  simpl in Hres. destruct Hres as (_ & _ & Hres).
  assert ((if onProgress is Some f then f st else Normal tt) = Normal tt) as Hret.
  { unfold PollJobStatus.callback_returns in Hcb.
    destruct onProgress; [exact Hcb | reflexivity]. }
  rewrite Hret in Hres. split; [exact Hpr |].
  assert (PollJobStatus.promise s' <> None ->
          forall evs' s'',
            PollJobStatus.run host env jobId onProgress intervalMs s' evs' = Some s'' ->
            PollJobStatus.fetches s'' = PollJobStatus.fetches s) as Hstop.
  { intros Hsettled evs' s'' Hrun'.
    now rewrite (settled_run _ _ _ _ _ _ _ _ HI' Hsettled Hrun'). }
  assert (PollJobStatus.timers s' = [t + PollJobStatus.delay host intervalMs] ->
          exists s'',
            PollJobStatus.step host env jobId onProgress intervalMs s'
              (PollJobStatus.Fire (t + PollJobStatus.delay host intervalMs)) = Some s'' /\
            PollJobStatus.fetches s''
              = (PollJobStatus.fetches s
                 ++ [(t + PollJobStatus.delay host intervalMs,
                      getJobStatus_request env jobId)])%list) as Hnext.
  { intros Htm. pose proof (delay_nonneg host intervalMs) as Hd.
    eexists. simpl. rewrite Htm, Hnow. simpl.
    rewrite bool_decide_eq_true_2 by (apply list_elem_of_singleton; reflexivity).
    rewrite Z.leb_refl. simpl.
    replace (t <=? t + PollJobStatus.delay host intervalMs)%Z with true
      by (symmetry; apply Z.leb_le; lia).
    split; [reflexivity |]. simpl. now rewrite Hfs. }
  destruct (status st); destruct Hres as [Hpr' Htm'];
    try (split; [exact Hpr' | split; [exact Hfs | exact (Hnext Htm')]]).
  - split; [exact Hpr' | apply Hstop; rewrite Hpr'; discriminate].
  - split; [exact Hpr' |]. split.
    + intros d Hd Hne. rewrite Hpr', Hd. simpl.
      destruct (String.eqb d "") eqn:Heq; [| reflexivity].
      apply String.eqb_eq in Heq. contradiction.
    + apply Hstop. rewrite Hpr'. discriminate.
Qed.

Lemma poll_settles_on_terminal_status_witness :
  let done :=
    {| job_id := "job-1"; status := completed; progress := 100;
       message := "Done"; video_url := Some "/api/video/job-1";
       roast_text := Some "Nice margins."; score := Some 42;
       error := None |} in
  exists s' : PollJobStatus.Loop,
    PollJobStatus.step Browser None "job-1" None None
      (PollJobStatus.pollJobStatus None "job-1" 0)
      (PollJobStatus.Arrive 120 (HttpOk (Normal done))) = Some s' /\
    PollJobStatus.promise (PollJobStatus.pollJobStatus None "job-1" 0) = None /\
    PollJobStatus.promise s' = Some (Normal done) /\
    forall evs' s'',
      PollJobStatus.run Browser None "job-1" None None s' evs' = Some s'' ->
      PollJobStatus.fetches s''
        = PollJobStatus.fetches (PollJobStatus.pollJobStatus None "job-1" 0).
Proof.
  intros done. eexists. split; [reflexivity |].
  exact (poll_settles_on_terminal_status Browser None "job-1" None None 0 120 []
           done _ _ eq_refl eq_refl I).
Defined.

(** Which replies make [getJobStatus] throw: all but a successful response
    whose body parses. *)
Lemma getJobStatus_throws (r : Reply JobStatus) :
  (exists e, getJobStatus_result r = Throw e) <->
  (forall st, r <> HttpOk (Normal st)).
Proof.
  split.
  - intros [e He] st ->. discriminate.
  - intros Hne. destruct r as [e | [st | e] | d]; simpl; eauto.
    now destruct (Hne st).
Qed.

(** C4. A status read that fails, for whatever reason, ends the polling.
    In [pollJobStatus] the promise rejects with the very value the read
    threw and no read is issued afterwards.  In the poller of the page the
    message of the failure becomes the error state, the interval is
    cleared, and no read is issued afterwards. *)
Theorem read_failure_stops_polling (host : Host) (env : option string) (jobId : string) :
  (forall onProgress intervalMs t0 t evs r e s s',
     PollJobStatus.run host env jobId onProgress intervalMs
       (PollJobStatus.pollJobStatus env jobId t0) evs = Some s ->
     PollJobStatus.step host env jobId onProgress intervalMs s
       (PollJobStatus.Arrive t r) = Some s' ->
     getJobStatus_result r = Throw e ->
     PollJobStatus.promise s' = Some (Throw e) /\
     PollJobStatus.timers s' = [] /\
     forall evs' s'',
       PollJobStatus.run host env jobId onProgress intervalMs s' evs' = Some s'' ->
       PollJobStatus.fetches s'' = PollJobStatus.fetches s)
  /\
  (forall t0 t evs r e p p',
     Generate.run env jobId (Generate.mount env (Some jobId) t0) evs = Some p ->
     Generate.step env jobId p (Generate.Arrive t r) = Some p' ->
     getJobStatus_result r = Throw e ->
     Generate.error_state p' = Some (Generate.shown_error e) /\
     Generate.intervals p' = [] /\
     forall evs' p'',
       Generate.run env jobId p' evs' = Some p'' ->
       Generate.fetches p'' = Generate.fetches p).
Proof.
  split.
  - intros onProgress intervalMs t0 t evs r e s s' Hrun Hstep Hthrow.
    pose proof (reachable_inv _ _ _ _ _ _ _ _ Hrun) as HI.
    pose proof (step_inv _ _ _ _ _ _ _ _ HI Hstep) as HI'.
    destruct (arrive_result _ _ _ _ _ _ _ _ _ HI Hstep) as (Hfs & _ & _ & _ & Hres).
    rewrite Hthrow in Hres. destruct Hres as (Hpr & Htm & _).
    repeat split; try assumption.
    intros evs' s'' Hrun'.
    assert (s'' = s') as ->.
    { eapply settled_run; [exact HI' | rewrite Hpr; discriminate | exact Hrun']. }
    exact Hfs.
  - intros t0 t evs r e p p' Hrun Hstep Hthrow.
    pose proof (grun_inv env jobId evs _ _ (mount_inv env _ t0) Hrun) as [Hhandle _].
    simpl in Hstep. destruct (Generate.inflight p) as [| n]; [discriminate |].
    destruct (_ && _); [| discriminate]. injection Hstep as <-.
    match goal with
    | |- context [Generate.task _ ?p0] =>
        destruct (resume_effect env jobId r p0)
          as (Hfs & _ & _ & _ & _ & _ & Hiv & Hres)
    end.
    rewrite Hthrow in Hres. destruct Hres as [Herr Hclear]. simpl in *.
    assert (Generate.intervals
              (Generate.task (Generate.pollStatus_resume env jobId r)
                 {| Generate.now := t; Generate.cleanup := Generate.cleanup p;
                    Generate.inflight := n;
                    Generate.intervals := Generate.intervals p;
                    Generate.next_handle := Generate.next_handle p;
                    Generate.pollInterval := Generate.pollInterval p;
                    Generate.processingStage := Generate.processingStage p;
                    Generate.videoUrl := Generate.videoUrl p;
                    Generate.error_state := Generate.error_state p;
                    Generate.toasts := Generate.toasts p;
                    Generate.navigated := Generate.navigated p;
                    Generate.fetches := Generate.fetches p;
                    Generate.console := Generate.console p;
                    Generate.uncaught := Generate.uncaught p |}) = []) as Hnone.
    { destruct (Generate.pollInterval p) as [h |] eqn:Hpi.
      - rewrite (Hclear h eq_refl). now apply clear_all.
      - destruct (Generate.intervals p) as [| tm l] eqn:Hl.
        + destruct Hiv as [-> | (h & [=] & _)]. reflexivity.
        + specialize (Hhandle tm). discriminate Hhandle. left. }
    repeat split; try assumption.
    intros evs' p'' Hrun'.
    destruct (no_interval_run env jobId evs' _ _ Hnone Hrun') as (_ & Hfs' & _).
    congruence.
Qed.

Lemma read_failure_stops_polling_witness :
  (exists s' : PollJobStatus.Loop,
     PollJobStatus.step Browser None "job-1" None None
       (PollJobStatus.pollJobStatus None "job-1" 0)
       (PollJobStatus.Arrive 80 (NetworkError (Error "Failed to fetch"))) = Some s' /\
     PollJobStatus.promise s' = Some (Throw (Error "Failed to fetch")) /\
     PollJobStatus.timers s' = [] /\
     forall evs' s'',
       PollJobStatus.run Browser None "job-1" None None s' evs' = Some s'' ->
       PollJobStatus.fetches s''
         = PollJobStatus.fetches (PollJobStatus.pollJobStatus None "job-1" 0))
  /\
  (exists p' : Generate.Page,
     Generate.step None "job-1" (Generate.mount None (Some "job-1") 0)
       (Generate.Arrive 80 (HttpFail (Normal (with_detail None)))) = Some p' /\
     Generate.error_state p' = Some "Failed to get job status" /\
     Generate.intervals p' = [] /\
     forall evs' p'',
       Generate.run None "job-1" p' evs' = Some p'' ->
       Generate.fetches p''
         = Generate.fetches (Generate.mount None (Some "job-1") 0)).
Proof.
  split.
  - eexists. split; [reflexivity |].
    exact (proj1 (read_failure_stops_polling Browser None "job-1")
             None None 0 80 [] (NetworkError (Error "Failed to fetch"))
             (Error "Failed to fetch") _ _ eq_refl eq_refl eq_refl).
  - eexists. split; [reflexivity |].
    exact (proj2 (read_failure_stops_polling Browser None "job-1")
             0 80 [] (HttpFail (Normal (with_detail None)))
             (Error "Failed to get job status") _ _ eq_refl eq_refl eq_refl).
Defined.

(** C5. With a progress callback, the callback has been called with
    every status the loop has observed, in order, and a status that
    [getJobStatus] returns is passed to it whatever that status is: equal
    to the one before or not, terminal or not. *)
Theorem progress_callback_sees_every_status
    (host : Host) (env : option string) (jobId : string)
    (f : JobStatus -> Completion unit) (intervalMs : option Z)
    (t0 : Z) (evs : list PollJobStatus.Event) (s : PollJobStatus.Loop) :
  PollJobStatus.run host env jobId (Some f) intervalMs
    (PollJobStatus.pollJobStatus env jobId t0) evs = Some s ->
  PollJobStatus.progress_calls s = PollJobStatus.observed s /\
  forall t st s',
    PollJobStatus.step host env jobId (Some f) intervalMs s
      (PollJobStatus.Arrive t (HttpOk (Normal st))) = Some s' ->
    PollJobStatus.observed s' = (PollJobStatus.observed s ++ [st])%list /\
    PollJobStatus.progress_calls s'
      = (PollJobStatus.progress_calls s ++ [st])%list.
Proof.
  intros Hrun. pose proof (reachable_inv _ _ _ _ _ _ _ _ Hrun) as HI.
  split; [exact (PollJobStatus.inv_progress _ _ _ _ HI) |].
  intros t st s' Hstep.
  destruct (arrive_result _ _ _ _ _ _ _ _ _ HI Hstep) as (_ & _ & _ & _ & Hres).
  simpl in Hres. destruct Hres as (Hob & Hpc & _). now split.
Qed.

Lemma progress_callback_sees_every_status_witness :
  let same :=
    {| job_id := "job-1"; status := roasting; progress := 50;
       message := "Roasting"; video_url := None; roast_text := None;
       score := None; error := None |} in
  let f := fun _ : JobStatus => Normal tt in
  exists s : PollJobStatus.Loop,
    PollJobStatus.run Browser None "job-1" (Some f) None
      (PollJobStatus.pollJobStatus None "job-1" 0)
      [PollJobStatus.Arrive 100 (HttpOk (Normal same));
       PollJobStatus.Fire 2100;
       PollJobStatus.Arrive 2200 (HttpOk (Normal same))] = Some s /\
    PollJobStatus.progress_calls s = [same; same] /\
    PollJobStatus.progress_calls s = PollJobStatus.observed s.
Proof.
  intros same f. eexists. split; [reflexivity |]. split; [reflexivity |].
  exact (proj1 (progress_callback_sees_every_status Browser None "job-1" f None 0
                  [PollJobStatus.Arrive 100 (HttpOk (Normal same));
                   PollJobStatus.Fire 2100;
                   PollJobStatus.Arrive 2200 (HttpOk (Normal same))]
                  _ eq_refl)).
Defined.

(** C7. Called without [intervalMs], the loop starts every status read
    but the first exactly 2000 ms after the read before it has returned. *)
Theorem default_interval_is_2000
    (host : Host) (env : option string) (jobId : string)
    (onProgress : option (JobStatus -> Completion unit))
    (t0 : Z) (evs : list PollJobStatus.Event) (s : PollJobStatus.Loop)
    (k : nat) (started : Z) :
  PollJobStatus.run host env jobId onProgress None
    (PollJobStatus.pollJobStatus env jobId t0) evs = Some s ->
  (PollJobStatus.fetches s).*1 !! S k = Some started ->
  exists returned,
    PollJobStatus.returned_at s !! k = Some returned /\
    started = returned + 2000.
Proof.
  intros Hrun Hk. pose proof (reachable_inv _ _ _ _ _ _ _ _ Hrun) as HI.
  pose proof (PollJobStatus.inv_single _ _ _ _ HI) as Hsingle.
  pose proof (PollJobStatus.inv_reads _ _ _ _ HI) as Hreads.
  apply lookup_lt_Some in Hk as Hlt. rewrite length_fmap in Hlt.
  destruct (PollJobStatus.returned_at s !! k) as [c |] eqn:Hc.
  - exists c. split; [reflexivity |].
    pose proof (PollJobStatus.inv_gap _ _ _ _ HI k started c Hk Hc) as Hgap.
    destruct host; exact Hgap.
  - apply lookup_ge_None in Hc. lia.
Qed.

Lemma default_interval_is_2000_witness :
  let waiting :=
    {| job_id := "job-1"; status := pending; progress := 0;
       message := "Queued"; video_url := None; roast_text := None;
       score := None; error := None |} in
  exists s : PollJobStatus.Loop,
    PollJobStatus.run Browser None "job-1" None None
      (PollJobStatus.pollJobStatus None "job-1" 0)
      [PollJobStatus.Arrive 350 (HttpOk (Normal waiting));
       PollJobStatus.Fire 2350] = Some s /\
    (PollJobStatus.fetches s).*1 !! 1%nat = Some 2350 /\
    exists returned,
      PollJobStatus.returned_at s !! 0%nat = Some returned /\
      2350 = returned + 2000.
Proof.
  intros waiting. eexists. split; [reflexivity |]. split; [reflexivity |].
  exact (default_interval_is_2000 Browser None "job-1" None 0
           [PollJobStatus.Arrive 350 (HttpOk (Normal waiting));
            PollJobStatus.Fire 2350] _ 0 2350 eq_refl eq_refl).
Defined.

End PollingClaims.

(** ** The upload section *)
Section UploadFacts.
Import Api UploadSection.

(** A file that is a PDF neither by type nor by name is refused by both
    handlers: the user sees an error, no file is held, and with no file held
    the generate button sends nothing. *)
Lemma non_pdf_is_refused (env : option string) (file : File)
    (rest : list File) (v : View) :
  is_pdf file = false ->
  uploadedFile v = None ->
  let v1 := (handleFileInput (Some (file :: rest)) v).2 in
  let v2 := (handleDrop (Some (file :: rest)) v).2 in
  uploadedFile v1 = None /\ uploadedFile v2 = None /\
  toasts v1 = (toasts v ++ [toast_error "Please upload a PDF file"])%list /\
  toasts v2 = (toasts v ++ [toast_error "Please upload a PDF file"])%list /\
  requests (handleGenerateRoast_call env v1).2 = requests v /\
  requests (handleGenerateRoast_call env v2).2 = requests v.
Proof.
  intros Hpdf Hnone.
  unfold handleFileInput, handleDrop, take_first, mbind, Js_bind; simpl.
  rewrite Hpdf. simpl.
  unfold handleGenerateRoast_call; simpl. rewrite Hnone. simpl.
  repeat split; assumption.
Qed.

Example endsWith_examples :
  endsWith "resume.pdf" ".pdf" = true /\ endsWith "resume.PDF" ".pdf" = false /\
  endsWith "pdf" ".pdf" = false /\ endsWith "cv.pdf.docx" ".pdf" = false.
Proof. repeat split. Qed.

Example docx_is_refused :
  let docx :=
    {| name := "resume.docx";
       type := "application/vnd.openxmlformats-officedocument.wordprocessingml.document";
       size := 20480 |} in
  (handleFileInput (Some [docx]) initial).2
  = {| uploadedFile := None; backgroundVideo := "subway_surfer";
       isDragging := false; isUploading := false;
       toasts := [toast_error "Please upload a PDF file"];
       requests := []; navigated := []; console := [] |}.
Proof. reflexivity. Qed.

(** The handlers look at the type and the name of a file and never at
    its size: a PDF of 11 MB, above the 10 MB the section announces, is
    taken as the uploaded file by [handleFileInput] and by [handleDrop]
    alike, with a success message, and the generate button then posts it
    to the upload endpoint, which is left to decide; were the endpoint to
    answer with a job id, the page would navigate to it. *)
Theorem oversized_pdf_is_submitted (env : option string) :
  let big :=
    {| name := "resume.pdf"; type := "application/pdf";
       size := 11 * 1024 * 1024 |} in
  let v1 := (handleFileInput (Some [big]) initial).2 in
  let v2 := (handleDrop (Some [big]) initial).2 in
  announced_max_size < size big /\
  uploadedFile v1 = Some big /\ uploadedFile v2 = Some big /\
  toasts v1 = [toast_success "Resume uploaded successfully!"] /\
  toasts v2 = [toast_success "Resume uploaded successfully!"] /\
  requests (handleGenerateRoast_call env v1).2
    = [uploadResume_request env big (Some "subway_surfer")] /\
  requests (handleGenerateRoast_call env v2).2
    = [uploadResume_request env big (Some "subway_surfer")] /\
  forall response : UploadResponse,
    navigated
      (handleGenerateRoast_resume (HttpOk (Normal response))
         (handleGenerateRoast_call env v1).2).2
    = ["/generate?jobId=" ++ upload_job_id response].
Proof.
  intros big v1 v2. repeat split.
Qed.

(** C6. A document that is not of a supported format, or that exceeds the
    size ceiling, is rejected by the upload endpoint with a validation
    error before any job is created: the job store is left as it was, the
    response carries no job id, [uploadResume] throws, and the page shows
    the error and does not navigate to a job. *)
Theorem invalid_document_creates_no_job
    (supported : File -> bool) (ceiling : Z)
    (valid_background : string -> bool)
    (complaint : File -> string -> ErrorBody)
    (fresh : UploadEndpoint.JobStore -> string)
    (accepted_message pending_message : string)
    (document : File) (background : string)
    (store : UploadEndpoint.JobStore) (v : View) :
  supported document = false \/ ceiling < size document ->
  let answer :=
    UploadEndpoint.submit supported ceiling valid_background complaint fresh
      accepted_message pending_message document background store in
  answer.2 = store /\
  (forall response, answer.1 <> HttpOk (Normal response)) /\
  (exists e, uploadResume_result answer.1 = Throw e) /\
  navigated (handleGenerateRoast_resume answer.1 v).2 = navigated v /\
  exists shown,
    toasts (handleGenerateRoast_resume answer.1 v).2
    = (toasts v ++ [toast_error shown])%list.
Proof.
  intros Hinvalid answer.
  assert (UploadEndpoint.valid supported ceiling valid_background
            document background = false) as Hvalid.
  { unfold UploadEndpoint.valid. destruct Hinvalid as [-> | Hsize].
    - reflexivity.
    - replace (size document <=? ceiling)%Z with false
        by (symmetry; apply Z.leb_gt; lia).
      now rewrite andb_false_r. }
  subst answer. unfold UploadEndpoint.submit. rewrite Hvalid. simpl.
  split; [reflexivity |]. split; [discriminate |].
  split; [eexists; reflexivity |].
  unfold handleGenerateRoast_resume, try_catch, mbind, Js_bind. simpl.
  split; [reflexivity |]. eexists. reflexivity.
Qed.

Lemma invalid_document_creates_no_job_witness :
  let big :=
    {| name := "resume.pdf"; type := "application/pdf";
       size := 11 * 1024 * 1024 |} in
  let answer :=
    UploadEndpoint.submit is_pdf announced_max_size
      (fun bg => bool_decide (bg ∈ backgrounds))
      (fun _ _ => with_detail (Some (of_string "File too large")))
      (fun store => "job-1") "Upload accepted" "Queued"
      big "subway_surfer" [] in
  (is_pdf big = false \/ announced_max_size < size big) /\
  answer.2 = [] /\
  (forall response, answer.1 <> HttpOk (Normal response)) /\
  (exists e, uploadResume_result answer.1 = Throw e) /\
  navigated (handleGenerateRoast_resume answer.1 initial).2 = [] /\
  exists shown,
    toasts (handleGenerateRoast_resume answer.1 initial).2
    = [toast_error shown].
Proof.
  intros big answer.
  assert (is_pdf big = false \/ announced_max_size < size big) as Hbig
    by (right; reflexivity).
  split; [exact Hbig |].
  exact (invalid_document_creates_no_job is_pdf announced_max_size
           (fun bg => bool_decide (bg ∈ backgrounds))
           (fun _ _ => with_detail (Some (of_string "File too large")))
           (fun store => "job-1") "Upload accepted" "Queued"
           big "subway_surfer" [] initial Hbig).
Defined.

End UploadFacts.

(** * Further properties *)

(** ** The API client: failures and fallbacks *)
Section ApiFailures.
Import Api.

Lemma or_default_nonempty (s : option string) (d : string) :
  d <> "" -> or_default s d <> "".
Proof.
  intros Hd. destruct s as [x |]; simpl; [| exact Hd].
  destruct (String.eqb x "") eqn:Heq; [exact Hd |].
  now apply String.eqb_neq in Heq.
Qed.

Lemma or_default_given (x d : string) : x <> "" -> or_default (Some x) d = x.
Proof.
  intros Hx. simpl. destruct (String.eqb x "") eqn:Heq; [| reflexivity].
  apply String.eqb_eq in Heq. contradiction.
Qed.

(** X1. On a response that is not ok, [uploadResume], [getJobStatus] and
    [getResult] each throw an [Error] (the [TypeError] of reading [detail]
    when the body is [null]).  Its message is the [detail] of the body when
    that is a string that is not empty, the function's own message when the
    body has no [detail] or a falsy one, and the message of the [catch]
    when the body does not parse; it is empty only when [detail] is a
    truthy value whose string is empty, as that of [[]] is. *)
Theorem failure_message (parsed : Completion ErrorBody) :
  exists m1 m2 m3 : string,
    uploadResume_result (HttpFail parsed) = Throw (Error m1) /\
    getJobStatus_result (HttpFail parsed) = Throw (Error m2) /\
    getResult_result (HttpFail parsed) = Throw (Error m3) /\
    (forall x, parsed = Normal (with_detail (Some (of_string x))) ->
       x <> "" -> m1 = x /\ m2 = x /\ m3 = x) /\
    (forall d, parsed = Normal (with_detail d) ->
       (forall v, d = Some v -> ToBoolean v = false) ->
       m1 = "Failed to upload resume" /\ m2 = "Failed to get job status" /\
       m3 = "Failed to get result") /\
    (forall e, parsed = Throw e ->
       m1 = "Upload failed" /\ m2 = "Status check failed" /\
       m3 = "Failed to get result") /\
    (m1 = "" \/ m2 = "" \/ m3 = "" ->
     exists v, parsed = Normal (with_detail (Some v)) /\
               ToBoolean v = true /\ ToString v = "").
Proof.
  destruct parsed as [[| [v |]] | e]; simpl; unfold http_failure; simpl.
  - eexists _, _, _. repeat split; try discriminate.
    intros [H | [H | H]]; discriminate.
  - destruct (ToBoolean v) eqn:Hv; eexists _, _, _;
      (split; [reflexivity |]); (split; [reflexivity |]);
      (split; [reflexivity |]).
    + split; [| split; [| split]].
      * intros x [= ->] Hx. repeat split.
      * intros d [= <-] Hfalsy. specialize (Hfalsy v eq_refl). congruence.
      * discriminate.
      * intros [H | [H | H]]; exists v; repeat split; assumption.
    + split; [| split; [| split]].
      * intros x [= ->] Hx. simpl in Hv.
        apply negb_false_iff, String.eqb_eq in Hv. contradiction.
      * intros d _ _. repeat split.
      * discriminate.
      * intros [H | [H | H]]; discriminate.
  - eexists _, _, _. repeat split; try discriminate.
    intros [H | [H | H]]; discriminate.
  - eexists _, _, _. repeat split; try discriminate.
    intros [H | [H | H]]; discriminate.
Qed.

(** X2. Whatever the reply, a value that [getAvailableBackgrounds] returns
    is truthy: never [null], [false], [0] or the empty string. *)
Theorem getAvailableBackgrounds_never_falsy (r : Reply json) (v : json) :
  getAvailableBackgrounds_result r = Normal v -> truthy v = true.
Proof.
  destruct r as [e | [data | e] | d]; simpl; try discriminate.
  destruct (get_prop data "backgrounds") as [[w |] | e]; try discriminate.
  - destruct (truthy w) eqn:Hw; intros [= <-]; [exact Hw | reflexivity].
  - intros [= <-]. reflexivity.
Qed.

Lemma getAvailableBackgrounds_never_falsy_witness :
  getAvailableBackgrounds_result
    (HttpOk (Normal (JObj {[ "backgrounds" := JNull ]}))) = Normal (JArr [])
  /\ truthy (JArr []) = true.
Proof.
  split; [reflexivity |].
  exact (getAvailableBackgrounds_never_falsy
           (HttpOk (Normal (JObj {[ "backgrounds" := JNull ]}))) (JArr [])
           eq_refl).
Defined.

(** X3. [getAvailableBackgrounds] returns a value exactly when the response
    is ok and its body parses to something other than [null]; a [null] body
    makes the read of [backgrounds] throw. *)
Theorem getAvailableBackgrounds_returns_iff (r : Reply json) :
  (exists v, getAvailableBackgrounds_result r = Normal v) <->
  (exists data, r = HttpOk (Normal data) /\ data <> JNull).
Proof.
  split.
  - intros [v Hv]. destruct r as [e | [data | e] | d]; simpl in Hv;
      try discriminate.
    exists data. split; [reflexivity |]. intros ->. discriminate.
  - intros (data & -> & Hdata). simpl.
    destruct data as [| b | z | x | l | fields]; simpl; try contradiction;
      try (eexists; reflexivity).
    destruct (fields !! "backgrounds") as [w |];
      [destruct (truthy w) |]; eexists; reflexivity.
Qed.

End ApiFailures.

(** ** [pollJobStatus]: what else every run keeps *)
Section PollMore.
Import Api PollJobStatus.

Context (host : Host) (env : option string) (jobId : string)
        (onProgress : option (JobStatus -> Completion unit))
        (intervalMs : option Z).

#[local] Abbreviation pstep := (PollJobStatus.step host env jobId onProgress intervalMs).
#[local] Abbreviation prun := (PollJobStatus.run host env jobId onProgress intervalMs).
#[local] Abbreviation pstart := (PollJobStatus.pollJobStatus env jobId).
#[local] Abbreviation PInv := (PollJobStatus.Inv host onProgress intervalMs).
#[local] Abbreviation PSound := (PollJobStatus.Sound env jobId).

(** What a timer that fires makes of the loop. *)
Lemma fire_result (s s' : Loop) (d : Z) :
  PInv s -> pstep s (Fire d) = Some s' ->
  timers s = [d] /\ inflight s = 0%nat /\
  fetches s' = (fetches s ++ [(d, getJobStatus_request env jobId)])%list /\
  promise s' = promise s /\ observed s' = observed s /\
  returned_at s' = returned_at s /\ progress_calls s' = progress_calls s /\
  timers s' = [] /\ inflight s' = 1%nat /\ now s' = d.
Proof.
  intros HI Hstep. pose proof (inv_single _ _ _ s HI) as Hsingle.
  simpl in Hstep.
  destruct (bool_decide (d ∈ timers s)) eqn:Hin; [| discriminate].
  apply bool_decide_eq_true in Hin.
  destruct (sole_timer d _ _ Hsingle Hin) as [Htm Hfl].
  destruct (_ && _); [| discriminate]. injection Hstep as <-.
  rewrite Htm, Hfl. simpl. rewrite Z.eqb_refl. repeat split; reflexivity.
Qed.

(** A property of the new call that every task keeps holds after every
    run. *)
Lemma reachable_ind (P : Loop -> Prop) (t0 : Z) :
  P (pstart t0) ->
  (forall s ev s', PInv s -> P s -> pstep s ev = Some s' -> P s') ->
  forall evs s, prun (pstart t0) evs = Some s -> P s.
Proof.
  intros Hstart Hkeep evs s Hrun.
  assert (forall evs s0 s1, PInv s0 -> P s0 -> prun s0 evs = Some s1 -> P s1)
    as Hgen.
  { clear evs s Hrun. induction evs as [| ev evs IH]; simpl; intros s0 s1 HI HP Hrun.
    - now injection Hrun as <-.
    - destruct (pstep s0 ev) as [s2 |] eqn:Hstep; [| discriminate].
      eapply IH; [| | exact Hrun].
      + eapply step_inv; eassumption.
      + eapply Hkeep; eassumption. }
  eapply Hgen; [apply start_inv | exact Hstart | exact Hrun].
Qed.

Lemma reachable_sound (t0 : Z) (evs : list Event) (s : Loop) :
  prun (pstart t0) evs = Some s -> PSound s.
Proof.
  apply reachable_ind.
  - split; simpl.
    + intros rq Hrq. apply list_elem_of_singleton in Hrq. exact Hrq.
    + discriminate.
    + lia.
  - intros s0 ev s1 HI [Hreq Hres Hobs] Hstep. destruct ev as [d | t r].
    + destruct (fire_result _ _ _ HI Hstep)
        as (_ & _ & Hfs & Hpr & Hob & Hrt & _).
      split.
      * intros rq. rewrite Hfs, fmap_app, elem_of_app. simpl.
        intros [Hrq | Hrq]; [auto |].
        now apply list_elem_of_singleton in Hrq.
      * rewrite Hpr, Hob. exact Hres.
      * rewrite Hob, Hrt. exact Hobs.
    + destruct (arrive_enabled _ _ _ _ _ _ _ _ _ HI Hstep) as (_ & _ & Hpr0 & _).
      destruct (arrive_result _ _ _ _ _ _ _ _ _ HI Hstep)
        as (Hfs & _ & _ & Hrt & Hcase).
      split.
      * rewrite Hfs. exact Hreq.
      * intros st Hst.
        destruct (getJobStatus_result r) as [st' | e].
        -- destruct Hcase as (Hob & _ & Hcb). rewrite Hob, last_snoc.
           destruct (if onProgress is Some f then f st' else Normal tt).
           ++ destruct (status st') eqn:Hstatus; destruct Hcb as [Hpr _];
                rewrite Hpr in Hst; try discriminate.
              injection Hst as <-. now split.
           ++ destruct Hcb as [Hpr _]. rewrite Hpr in Hst. discriminate.
        -- destruct Hcase as (Hpr & _). rewrite Hpr in Hst. discriminate.
      * rewrite Hrt, length_app. simpl.
        destruct (getJobStatus_result r) as [st' | e].
        -- destruct Hcase as (Hob & _). rewrite Hob, length_app. simpl. lia.
        -- destruct Hcase as (_ & _ & Hob & _). rewrite Hob. lia.
Qed.

End PollMore.

Section PollExtras.
Import Api.

(** X4. While the promise of [pollJobStatus] is pending the loop is alive
    in exactly one way: either one status read is awaited and no timer is
    set, or no read is awaited and one timer is set, due now or later.
    Once the promise is settled neither is left. *)
Theorem pending_promise_is_being_served
    (host : Host) (env : option string) (jobId : string)
    (onProgress : option (JobStatus -> Completion unit)) (intervalMs : option Z)
    (t0 : Z) (evs : list PollJobStatus.Event) (s : PollJobStatus.Loop) :
  PollJobStatus.run host env jobId onProgress intervalMs
    (PollJobStatus.pollJobStatus env jobId t0) evs = Some s ->
  match PollJobStatus.promise s with
  | None =>
      (PollJobStatus.inflight s = 1%nat /\ PollJobStatus.timers s = []) \/
      (PollJobStatus.inflight s = 0%nat /\
       exists d, PollJobStatus.timers s = [d] /\ PollJobStatus.now s <= d)
  | Some _ =>
      PollJobStatus.inflight s = 0%nat /\ PollJobStatus.timers s = []
  end.
Proof.
  intros Hrun. pose proof (reachable_inv _ _ _ _ _ _ _ _ Hrun) as HI.
  pose proof (PollJobStatus.inv_single _ _ _ _ HI) as Hsingle.
  pose proof (PollJobStatus.inv_pending _ _ _ _ HI) as Hpending.
  pose proof (PollJobStatus.inv_timer _ _ _ _ HI) as Htimer.
  destruct (PollJobStatus.promise s) as [c |].
  - destruct (PollJobStatus.inflight s) as [| n],
      (PollJobStatus.timers s) as [| d tm]; simpl in *;
      try (split; reflexivity); try lia;
      exfalso; assert (Some c = None) as Habs
        by (apply Hpending; try (destruct tm; simpl in * ); lia);
      discriminate.
  - assert ((PollJobStatus.inflight s
             + length (PollJobStatus.timers s))%nat = 1%nat) as Hone
      by (now apply Hpending).
    destruct (PollJobStatus.inflight s) as [| n],
      (PollJobStatus.timers s) as [| d [| d' tm]]; simpl in *; try lia.
    + right. split; [reflexivity |]. exists d. split; [reflexivity |].
      apply (Htimer d). left.
    + left. split; [f_equal; lia | reflexivity].
Qed.

Lemma pending_promise_is_being_served_witness :
  let waiting :=
    {| job_id := "job-1"; status := analyzing; progress := 10;
       message := "Analyzing"; video_url := None; roast_text := None;
       score := None; error := None |} in
  exists s : PollJobStatus.Loop,
    PollJobStatus.run Browser None "job-1" None None
      (PollJobStatus.pollJobStatus None "job-1" 0)
      [PollJobStatus.Arrive 90 (HttpOk (Normal waiting))] = Some s /\
    ((PollJobStatus.inflight s = 1%nat /\ PollJobStatus.timers s = []) \/
     (PollJobStatus.inflight s = 0%nat /\
      exists d, PollJobStatus.timers s = [d] /\ PollJobStatus.now s <= d)).
Proof.
  intros waiting. eexists. split; [reflexivity |].
  exact (pending_promise_is_being_served Browser None "job-1" None None 0
           [PollJobStatus.Arrive 90 (HttpOk (Normal waiting))] _ eq_refl).
Defined.

(** X5. A progress callback that throws ends the loop: the promise rejects
    with what the callback threw, also when the status it was called with
    is [completed]; the status has been passed to the callback, no timer is
    set and no further read is issued. *)
Theorem throwing_callback_rejects
    (host : Host) (env : option string) (jobId : string)
    (f : JobStatus -> Completion unit) (intervalMs : option Z)
    (t0 t : Z) (evs : list PollJobStatus.Event) (st : JobStatus) (e : Exn)
    (s s' : PollJobStatus.Loop) :
  PollJobStatus.run host env jobId (Some f) intervalMs
    (PollJobStatus.pollJobStatus env jobId t0) evs = Some s ->
  PollJobStatus.step host env jobId (Some f) intervalMs s
    (PollJobStatus.Arrive t (HttpOk (Normal st))) = Some s' ->
  f st = Throw e ->
  PollJobStatus.promise s' = Some (Throw e) /\
  PollJobStatus.timers s' = [] /\
  PollJobStatus.progress_calls s'
    = (PollJobStatus.progress_calls s ++ [st])%list /\
  forall evs' s'',
    PollJobStatus.run host env jobId (Some f) intervalMs s' evs' = Some s'' ->
    PollJobStatus.fetches s'' = PollJobStatus.fetches s.
Proof.
  intros Hrun Hstep Hthrow.
  pose proof (reachable_inv _ _ _ _ _ _ _ _ Hrun) as HI.
  pose proof (step_inv _ _ _ _ _ _ _ _ HI Hstep) as HI'.
  destruct (arrive_result _ _ _ _ _ _ _ _ _ HI Hstep) as (Hfs & _ & _ & _ & Hres).
  simpl in Hres. rewrite Hthrow in Hres. destruct Hres as (_ & Hpc & Hpr & Htm).
  repeat split; try assumption.
  intros evs' s'' Hrun'.
  assert (s'' = s') as ->.
  { eapply settled_run; [exact HI' | rewrite Hpr; discriminate | exact Hrun']. }
  exact Hfs.
Qed.

Lemma throwing_callback_rejects_witness :
  let done :=
    {| job_id := "job-1"; status := completed; progress := 100;
       message := "Done"; video_url := None; roast_text := None;
       score := Some 7; error := None |} in
  let f := fun _ : JobStatus => @Throw unit (Error "render failed") in
  exists s' : PollJobStatus.Loop,
    PollJobStatus.step Browser None "job-1" (Some f) None
      (PollJobStatus.pollJobStatus None "job-1" 0)
      (PollJobStatus.Arrive 60 (HttpOk (Normal done))) = Some s' /\
    PollJobStatus.promise s' = Some (Throw (Error "render failed")) /\
    PollJobStatus.timers s' = [] /\
    PollJobStatus.progress_calls s' = [done] /\
    forall evs' s'',
      PollJobStatus.run Browser None "job-1" (Some f) None s' evs' = Some s'' ->
      PollJobStatus.fetches s''
        = PollJobStatus.fetches (PollJobStatus.pollJobStatus None "job-1" 0).
Proof.
  intros done f. eexists. split; [reflexivity |].
  exact (throwing_callback_rejects Browser None "job-1" f None 0 60 [] done
           (Error "render failed") _ _ eq_refl eq_refl eq_refl).
Defined.

(** X6. Called with an interval between 1 and [2^31 - 1] ms, the range
    in which a timer is given the delay it is asked for, in a browser and
    in Node.js alike, the loop starts every status read but the first
    exactly that many milliseconds after the read before it has
    returned. *)
Theorem given_interval_is_kept
    (host : Host) (env : option string) (jobId : string)
    (onProgress : option (JobStatus -> Completion unit)) (ms : Z)
    (t0 : Z) (evs : list PollJobStatus.Event) (s : PollJobStatus.Loop)
    (k : nat) (started : Z) :
  1 <= ms <= 2147483647 ->
  PollJobStatus.run host env jobId onProgress (Some ms)
    (PollJobStatus.pollJobStatus env jobId t0) evs = Some s ->
  (PollJobStatus.fetches s).*1 !! S k = Some started ->
  exists returned,
    PollJobStatus.returned_at s !! k = Some returned /\
    started = returned + ms.
Proof.
  intros Hms Hrun Hk. pose proof (reachable_inv _ _ _ _ _ _ _ _ Hrun) as HI.
  pose proof (PollJobStatus.inv_single _ _ _ _ HI) as Hsingle.
  pose proof (PollJobStatus.inv_reads _ _ _ _ HI) as Hreads.
  apply lookup_lt_Some in Hk as Hlt. rewrite length_fmap in Hlt.
  destruct (PollJobStatus.returned_at s !! k) as [c |] eqn:Hc.
  - exists c. split; [reflexivity |].
    pose proof (PollJobStatus.inv_gap _ _ _ _ HI k started c Hk Hc) as Hgap.
    assert (PollJobStatus.delay host (Some ms) = ms) as Hdelay.
    { unfold PollJobStatus.delay, PollJobStatus.interval, timer_delay. simpl.
      destruct host.
      - unfold ToInt32. rewrite Z.mod_small by lia. lia.
      - replace (1 <=? ms)%Z with true by (symmetry; apply Z.leb_le; lia).
        replace (ms <=? 2147483647)%Z with true
          by (symmetry; apply Z.leb_le; lia).
        reflexivity. }
    now rewrite Hdelay in Hgap.
  - apply lookup_ge_None in Hc. lia.
Qed.

Lemma given_interval_is_kept_witness :
  let waiting :=
    {| job_id := "job-1"; status := generating; progress := 80;
       message := "Rendering"; video_url := None; roast_text := None;
       score := None; error := None |} in
  exists s : PollJobStatus.Loop,
    1 <= 500 <= 2147483647 /\
    PollJobStatus.run NodeJs None "job-1" None (Some 500)
      (PollJobStatus.pollJobStatus None "job-1" 0)
      [PollJobStatus.Arrive 40 (HttpOk (Normal waiting));
       PollJobStatus.Fire 540] = Some s /\
    (PollJobStatus.fetches s).*1 !! 1%nat = Some 540 /\
    exists returned,
      PollJobStatus.returned_at s !! 0%nat = Some returned /\
      540 = returned + 500.
Proof.
  intros waiting. eexists. split; [lia |].
  split; [reflexivity |]. split; [reflexivity |].
  refine (given_interval_is_kept NodeJs None "job-1" None 500 0
           [PollJobStatus.Arrive 40 (HttpOk (Normal waiting));
            PollJobStatus.Fire 540] _ 0 540 _ eq_refl eq_refl).
  lia.
Defined.

(** X7. The promise of [pollJobStatus] resolves only with a status that
    says [completed], and that status is the last one the loop observed. *)
Theorem resolves_only_with_completed
    (host : Host) (env : option string) (jobId : string)
    (onProgress : option (JobStatus -> Completion unit)) (intervalMs : option Z)
    (t0 : Z) (evs : list PollJobStatus.Event) (s : PollJobStatus.Loop)
    (st : JobStatus) :
  PollJobStatus.run host env jobId onProgress intervalMs
    (PollJobStatus.pollJobStatus env jobId t0) evs = Some s ->
  PollJobStatus.promise s = Some (Normal st) ->
  status st = completed /\ last (PollJobStatus.observed s) = Some st.
Proof.
  intros Hrun. apply (PollJobStatus.sound_resolved env jobId).
  eapply reachable_sound, Hrun.
Qed.

Lemma resolves_only_with_completed_witness :
  let done :=
    {| job_id := "job-1"; status := completed; progress := 100;
       message := "Done"; video_url := None; roast_text := None;
       score := Some 7; error := None |} in
  exists s : PollJobStatus.Loop,
    PollJobStatus.run Browser None "job-1" None None
      (PollJobStatus.pollJobStatus None "job-1" 0)
      [PollJobStatus.Arrive 60 (HttpOk (Normal done))] = Some s /\
    PollJobStatus.promise s = Some (Normal done) /\
    status done = completed /\
    last (PollJobStatus.observed s) = Some done.
Proof.
  intros done. eexists. split; [reflexivity |]. split; [reflexivity |].
  exact (resolves_only_with_completed Browser None "job-1" None None 0
           [PollJobStatus.Arrive 60 (HttpOk (Normal done))] _ done
           eq_refl eq_refl).
Defined.

(** X8. Every request of a call of [pollJobStatus] is a GET of the status
    of its own job, and every read but the one still awaited has returned:
    the reads issued are the reads returned plus those in flight. *)
Theorem polls_only_its_own_status
    (host : Host) (env : option string) (jobId : string)
    (onProgress : option (JobStatus -> Completion unit)) (intervalMs : option Z)
    (t0 : Z) (evs : list PollJobStatus.Event) (s : PollJobStatus.Loop) :
  PollJobStatus.run host env jobId onProgress intervalMs
    (PollJobStatus.pollJobStatus env jobId t0) evs = Some s ->
  (forall rq, rq ∈ (PollJobStatus.fetches s).*2 ->
     url rq = API_BASE_URL env ++ "/api/status/" ++ jobId /\
     method rq = GET /\ body rq = []) /\
  length (PollJobStatus.fetches s)
    = (length (PollJobStatus.returned_at s) + PollJobStatus.inflight s)%nat /\
  (length (PollJobStatus.observed s)
     <= length (PollJobStatus.returned_at s))%nat.
Proof.
  intros Hrun. pose proof (reachable_sound _ _ _ _ _ _ _ _ Hrun) as [Hreq _ Hobs].
  pose proof (reachable_inv _ _ _ _ _ _ _ _ Hrun) as HI.
  split; [| split; [exact (PollJobStatus.inv_reads _ _ _ _ HI) | exact Hobs]].
  intros rq Hrq. rewrite (Hreq rq Hrq). repeat split.
Qed.

Lemma polls_only_its_own_status_witness :
  exists s : PollJobStatus.Loop,
    PollJobStatus.run Browser None "job-1" None None
      (PollJobStatus.pollJobStatus None "job-1" 0)
      [PollJobStatus.Arrive 60 (HttpFail (Normal (with_detail None)))] = Some s /\
    length (PollJobStatus.fetches s)
      = (length (PollJobStatus.returned_at s) + PollJobStatus.inflight s)%nat.
Proof.
  eexists. split; [reflexivity |].
  exact (proj1 (proj2 (polls_only_its_own_status Browser None "job-1" None None 0
           [PollJobStatus.Arrive 60 (HttpFail (Normal (with_detail None)))] _ eq_refl))).
Defined.

End PollExtras.

(** ** The poller of the page: what else every run keeps *)
Section GenerateMore.
Import Api Generate.

Context (env : option string) (jobId : string).

#[local] Abbreviation gstep' := (Generate.step env jobId).
#[local] Abbreviation grun' := (Generate.run env jobId).

(** What the resumed [pollStatus] shows, case by case. *)
Lemma resume_shows (r : Reply JobStatus) (p : Page) :
  let p' := task (pollStatus_resume env jobId r) p in
  match getJobStatus_result r with
  | Throw e =>
      videoUrl p' = videoUrl p /\ processingStage p' = processingStage p /\
      error_state p' = Some (shown_error e) /\
      toasts p' = (toasts p ++ [toast_error "Failed to get processing status"])%list
  | Normal st =>
      match status st with
      | completed =>
          videoUrl p' = Some (getVideoUrl env jobId) /\
          processingStage p' = Some stage_complete /\
          error_state p' = error_state p /\
          toasts p' = (toasts p ++ [toast_success "Your roast video is ready!"])%list
      | failed =>
          videoUrl p' = videoUrl p /\ processingStage p' = processingStage p /\
          error_state p' = Some (or_default (error st) "Processing failed") /\
          toasts p' = (toasts p
                       ++ [toast_error (or_default (error st) "Processing failed")])%list
      | pending =>
          videoUrl p' = videoUrl p /\ processingStage p' = processingStage p /\
          error_state p' = error_state p /\ toasts p' = toasts p
      | analyzing =>
          videoUrl p' = videoUrl p /\
          processingStage p' = Some stage_analyzing /\
          error_state p' = error_state p /\ toasts p' = toasts p
      | roasting =>
          videoUrl p' = videoUrl p /\
          processingStage p' = Some stage_roasting /\
          error_state p' = error_state p /\ toasts p' = toasts p
      | generating =>
          videoUrl p' = videoUrl p /\
          processingStage p' = Some stage_generating /\
          error_state p' = error_state p /\ toasts p' = toasts p
      end
  end.
Proof.
  destruct p as [nw cl fl iv nh pi ps vu es ts nv fs co un].
  unfold task, pollStatus_resume, try_catch, mbind, Js_bind, clear_pollInterval.
  destruct (getJobStatus_result r) as [st | e]; simpl.
  - destruct (status st); simpl; destruct pi as [h |]; simpl;
      repeat split; reflexivity.
  - destruct pi as [h |]; simpl; destruct e; repeat split; reflexivity.
Qed.

(** A list with one timer, cleared of a handle, still has that timer or
    none. *)
Lemma filter_sole (tm : positive * Z) (h : positive) :
  filter (fun x => negb (Pos.eqb (fst x) h)) [tm] = [tm] \/
  filter (fun x => negb (Pos.eqb (fst x) h)) [tm] = [].
Proof.
  rewrite filter_cons, filter_nil.
  destruct (decide (negb (Pos.eqb (fst tm) h))); [now left | now right].
Qed.

Lemma mount_steady (t0 : Z) : Steady env jobId t0 (mount env (Some jobId) t0).
Proof.
  unfold mount. simpl. destruct (String.eqb jobId "") eqn:Hj; split; simpl;
    try (now left); try discriminate;
    try (intros k at_k Hk; destruct k; discriminate);
    try (intros x Hx; now inversion Hx);
    try (intros [H | H]; now destruct H).
  - intros k at_k Hk. destruct k as [| k]; [| destruct k; discriminate].
    injection Hk as <-. unfold period. lia.
  - right. reflexivity.
  - intros tm Htm. apply list_elem_of_singleton in Htm. subst. simpl.
    unfold period. lia.
Qed.

Lemma gstep_steady (t0 : Z) (p p' : Page) (ev : Event) :
  Inv p -> Steady env jobId t0 p -> gstep' p ev = Some p' ->
  Steady env jobId t0 p'.
Proof.
  intros [Hhandle _] [Hrate Hreq Htimer Hclock Hvideo Hstage Hdone].
  destruct ev as [h | t r | t]; simpl.
  - (* the interval fires *)
    unfold due. destruct Htimer as [Hiv | Hiv]; rewrite Hiv; simpl;
      [discriminate |].
    destruct (Pos.eqb 1 h) eqn:Hh; simpl; [| discriminate].
    apply Pos.eqb_eq in Hh. subst h.
    destruct (_ && _); [| discriminate]. intros [= <-].
    unfold none_due_before, task, pollStatus_call; simpl. rewrite Hiv; simpl.
    split; simpl.
    + intros k at_k. rewrite fmap_app. simpl. intros Hk.
      destruct (decide (k < length (fetches p))%nat) as [Hlt | Hge].
      * rewrite lookup_app_l in Hk by (now rewrite length_fmap). eauto.
      * apply lookup_lt_Some in Hk as Hlt'.
        rewrite length_app, length_fmap in Hlt'. simpl in Hlt'.
        assert (k = length (fetches p)) as -> by lia.
        rewrite lookup_app_r in Hk by (rewrite length_fmap; lia).
        rewrite length_fmap, Nat.sub_diag in Hk. now injection Hk as <-.
    + intros rq. rewrite fmap_app, elem_of_app. simpl.
      intros [Hrq | Hrq]; [auto | now apply list_elem_of_singleton in Hrq].
    + right. rewrite length_app. simpl. unfold period. do 2 f_equal. lia.
    + intros tm Htm. apply list_elem_of_singleton in Htm. subst. simpl.
      unfold period. lia.
    + exact Hvideo.
    + exact Hstage.
    + intros Hshown. specialize (Hdone Hshown). rewrite Hiv in Hdone.
      discriminate.
  - (* a reply arrives *)
    destruct (inflight p) as [| n]; [discriminate |].
    destruct (_ && _) eqn:Hguard; [| discriminate]. intros [= <-].
    apply andb_prop in Hguard as [_ Hnone].
    match goal with
    | |- Steady _ _ _ (task _ ?p0) =>
        pose proof (resume_effect env jobId r p0) as Heff;
        pose proof (resume_shows r p0) as Hshow;
        set (q := task (pollStatus_resume env jobId r) p0) in *
    end.
    simpl in Heff, Hshow.
    destruct Heff as (Hfs & _ & _ & _ & _ & Hnow & Hiv & Hclear).
    assert (forall tm, tm ∈ intervals q -> tm ∈ intervals p) as Hsub.
    { intros tm. destruct Hiv as [-> | (h & _ & ->)]; [auto |].
      intros Htm. now apply list_elem_of_filter in Htm as [_ Htm]. }
    assert (forall h, pollInterval p = Some h ->
              filter (fun tm => negb (Pos.eqb (fst tm) h)) (intervals p) = [])
      as Hall.
    { intros h Hh. apply clear_all. intros tm Htm.
      rewrite <- Hh. now apply Hhandle. }
    assert (pollInterval p = None -> intervals p = []) as Hunset.
    { intros Hpi. destruct (intervals p) as [| tm l]; [reflexivity |].
      specialize (Hhandle tm). rewrite Hpi in Hhandle.
      discriminate Hhandle. left. }
    split.
    + rewrite Hfs. exact Hrate.
    + rewrite Hfs. exact Hreq.
    + rewrite Hfs. destruct Hiv as [-> | (h & _ & ->)]; [exact Htimer |].
      destruct Htimer as [-> | ->]; [now left |].
      destruct (filter_sole (1%positive,
                  t0 + period * Z.of_nat (length (fetches p))) h) as [-> | ->];
        [now right | now left].
    + intros tm Htm. rewrite Hnow. simpl.
      unfold none_due_before in Hnone. rewrite forallb_forall in Hnone.
      apply Z.leb_le, Hnone, list_elem_of_In, Hsub, Htm.
    + destruct (getJobStatus_result r) as [st | e].
      * destruct (status st); destruct Hshow as (Hv & _ & _ & Hts);
          rewrite Hv, Hts;
          first
            [ exact Hvideo
            | right; split; [reflexivity |]; apply elem_of_app; right; left
            | destruct Hvideo as [Hv0 | [Hv0 Hin]];
              [now left | right; split; [exact Hv0 | apply elem_of_app; now left]] ].
      * destruct Hshow as (Hv & _ & _ & Hts). rewrite Hv, Hts.
        destruct Hvideo as [Hv0 | [Hv0 Hin]]; [now left | right].
        split; [exact Hv0 |]. apply elem_of_app. now left.
    + destruct (getJobStatus_result r) as [st | e].
      * destruct (status st); destruct Hshow as (_ & Hps & _);
          rewrite Hps; first [exact Hstage | discriminate].
      * destruct Hshow as (_ & Hps & _). rewrite Hps. exact Hstage.
    + intros Hshown.
      assert (intervals p = [] -> intervals q = []) as Hkeep.
      { intros Hnil. destruct (intervals q) as [| tm l] eqn:Hq; [reflexivity |].
        specialize (Hsub tm). rewrite Hnil in Hsub.
        exfalso. eapply not_elem_of_nil, Hsub. left. }
      assert (forall h, pollInterval p = Some h ->
                intervals q
                = filter (fun tm => negb (Pos.eqb (fst tm) h)) (intervals p) ->
                intervals q = []) as Hcleared.
      { intros h Hh ->. now apply Hall. }
      destruct (getJobStatus_result r) as [st | e].
      * destruct (status st) eqn:Hst;
          destruct Hshow as (Hv & _ & Hes & _);
          try (apply Hkeep, Hdone; rewrite <- Hv, <- Hes; exact Hshown).
        -- destruct (pollInterval p) as [h |] eqn:Hpi;
             [eapply Hcleared; eauto | now apply Hkeep, Hunset].
        -- destruct (pollInterval p) as [h |] eqn:Hpi;
             [eapply Hcleared; eauto | now apply Hkeep, Hunset].
      * destruct Hclear as [_ Hclear].
        destruct (pollInterval p) as [h |] eqn:Hpi;
          [eapply Hcleared; eauto | now apply Hkeep, Hunset].
  - (* the cleanup runs *)
    destruct (_ && _) eqn:Hguard; [| discriminate]. intros [= <-].
    apply andb_prop in Hguard as [_ Hnone].
    unfold task, clear_pollInterval; simpl.
    destruct (pollInterval p) as [h |] eqn:Hpi; simpl; split; simpl;
      try assumption.
    + left. apply clear_all. intros tm Htm. now apply Hhandle.
    + intros tm Htm. apply list_elem_of_filter in Htm as [_ Htm].
      unfold none_due_before in Hnone. rewrite forallb_forall in Hnone.
      apply Z.leb_le, Hnone, list_elem_of_In, Htm.
    + intros _. apply clear_all. intros tm Htm. now apply Hhandle.
    + intros tm Htm.
      unfold none_due_before in Hnone. rewrite forallb_forall in Hnone.
      apply Z.leb_le, Hnone, list_elem_of_In, Htm.
Qed.

Lemma grun_steady (t0 : Z) (evs : list Event) (p p' : Page) :
  Inv p -> Steady env jobId t0 p -> grun' p evs = Some p' ->
  Steady env jobId t0 p'.
Proof.
  revert p. induction evs as [| ev evs IH]; simpl; intros p HI HS Hrun.
  - now injection Hrun as <-.
  - destruct (gstep' p ev) as [p1 |] eqn:Hstep; [| discriminate].
    eapply IH; [| | exact Hrun].
    + eapply gstep_inv; eassumption.
    + eapply gstep_steady; eassumption.
Qed.

Lemma reachable_steady (t0 : Z) (evs : list Event) (p : Page) :
  grun' (mount env (Some jobId) t0) evs = Some p -> Steady env jobId t0 p.
Proof. apply grun_steady; [apply mount_inv | apply mount_steady]. Qed.

End GenerateMore.

Section GenerateExtras.
Import Api.

(** X9. The page issues its reads at a fixed rate: the read number [k]
    (from 0) goes out exactly [2000 * k] ms after the effect ran, whenever
    the replies come, and every read is a GET of the status of the job of
    the search parameters. *)
Theorem page_polls_at_fixed_rate
    (env : option string) (jobId : string) (t0 : Z)
    (evs : list Generate.Event) (p : Generate.Page)
    (k : nat) (at_k : Z) (rq : Request) :
  Generate.run env jobId (Generate.mount env (Some jobId) t0) evs = Some p ->
  Generate.fetches p !! k = Some (at_k, rq) ->
  at_k = t0 + 2000 * Z.of_nat k /\ rq = getJobStatus_request env jobId.
Proof.
  intros Hrun Hk. pose proof (reachable_steady _ _ _ _ _ Hrun) as HS.
  split.
  - apply (Generate.steady_rate _ _ _ _ HS k).
    rewrite list_lookup_fmap, Hk. reflexivity.
  - apply (Generate.steady_requests _ _ _ _ HS).
    apply list_elem_of_fmap. exists (at_k, rq). split; [reflexivity |].
    eapply list_elem_of_lookup_2, Hk.
Qed.

Lemma page_polls_at_fixed_rate_witness :
  exists p : Generate.Page,
    Generate.run None "job-1" (Generate.mount None (Some "job-1") 100)
      [Generate.Tick 1; Generate.Tick 1] = Some p /\
    Generate.fetches p !! 2%nat
      = Some (4100, getJobStatus_request None "job-1") /\
    4100 = 100 + 2000 * Z.of_nat 2 /\
    getJobStatus_request None "job-1" = getJobStatus_request None "job-1".
Proof.
  eexists. split; [reflexivity |]. split; [reflexivity |].
  exact (page_polls_at_fixed_rate None "job-1" 100
           [Generate.Tick 1; Generate.Tick 1] _ 2 4100 _ eq_refl eq_refl).
Defined.

(** X10. A status of [completed] or [failed] ends the polling of the page:
    the interval is cleared and no read is issued afterwards, whatever
    replies are still to come.  On [completed] the page holds the video
    URL of the job and the stage [complete]; on [failed] it holds the
    error of the status, or [Processing failed] when that is absent or
    empty. *)
Theorem page_stops_on_terminal_status
    (env : option string) (jobId : string) (t0 t : Z)
    (evs : list Generate.Event) (st : JobStatus) (p p' : Generate.Page) :
  Generate.run env jobId (Generate.mount env (Some jobId) t0) evs = Some p ->
  Generate.step env jobId p (Generate.Arrive t (HttpOk (Normal st))) = Some p' ->
  status st = completed \/ status st = failed ->
  Generate.intervals p' = [] /\
  (forall evs' p'',
     Generate.run env jobId p' evs' = Some p'' ->
     Generate.fetches p'' = Generate.fetches p) /\
  (status st = completed ->
     Generate.videoUrl p' = Some (getVideoUrl env jobId) /\
     Generate.processingStage p' = Some Generate.stage_complete) /\
  (status st = failed ->
     Generate.error_state p'
       = Some (or_default (error st) "Processing failed") /\
     Generate.videoUrl p' = Generate.videoUrl p).
Proof.
  intros Hrun Hstep Hterminal.
  pose proof (grun_inv env jobId evs _ _ (mount_inv env _ t0) Hrun) as [Hhandle _].
  simpl in Hstep. destruct (Generate.inflight p) as [| n]; [discriminate |].
  destruct (_ && _); [| discriminate]. injection Hstep as <-.
  match goal with
  | |- context [Generate.task _ ?p0] =>
      pose proof (resume_effect env jobId (HttpOk (Normal st)) p0) as Heff;
      pose proof (resume_shows env jobId (HttpOk (Normal st)) p0) as Hshow;
      set (q := Generate.task
                  (Generate.pollStatus_resume env jobId (HttpOk (Normal st))) p0)
        in *
  end.
  simpl in Heff, Hshow.
  destruct Heff as (Hfs & _ & _ & _ & _ & _ & Hiv & Hclear).
  specialize (Hclear Hterminal).
  assert (Generate.intervals q = []) as Hnone.
  { destruct (Generate.pollInterval p) as [h |] eqn:Hpi.
    - rewrite (Hclear h eq_refl). apply clear_all.
      intros tm Htm. now apply Hhandle.
    - destruct (Generate.intervals p) as [| tm l] eqn:Hl.
      + destruct Hiv as [-> | (h & [=] & _)]. reflexivity.
      + specialize (Hhandle tm). discriminate Hhandle. left. }
  split; [exact Hnone |]. split.
  - intros evs' p'' Hrun'.
    destruct (no_interval_run env jobId evs' _ _ Hnone Hrun') as (_ & Hfs' & _).
    congruence.
  - split; intros Hst; rewrite Hst in Hshow;
      destruct Hshow as (Hv & Hps & Hes & _); split; assumption.
Qed.

Lemma page_stops_on_terminal_status_witness :
  let done :=
    {| job_id := "job-1"; status := completed; progress := 100;
       message := "Done"; video_url := None; roast_text := None;
       score := Some 7; error := None |} in
  exists p' : Generate.Page,
    Generate.step None "job-1" (Generate.mount None (Some "job-1") 0)
      (Generate.Arrive 300 (HttpOk (Normal done))) = Some p' /\
    Generate.intervals p' = [] /\
    Generate.videoUrl p' = Some "http://localhost:8000/api/video/job-1".
Proof.
  intros done. eexists. split; [reflexivity |].
  pose proof (page_stops_on_terminal_status None "job-1" 0 300 [] done _ _
                eq_refl eq_refl (or_introl eq_refl)) as (Hiv & _ & Hdone & _).
  split; [exact Hiv | exact (proj1 (Hdone eq_refl))].
Defined.

(** X11. Without a job id in the search parameters (none, or an empty
    one) the page shows an error, goes back to the start page and never
    polls: it issues no request, sets no timer, and no task is left for the
    event loop. *)
Theorem page_without_job_id_never_polls
    (env : option string) (jobId : string) (q : option string) (t0 : Z)
    (evs : list Generate.Event) (p : Generate.Page) :
  Generate.no_jobId q = true ->
  Generate.run env jobId (Generate.mount env q t0) evs = Some p ->
  evs = [] /\
  Generate.fetches p = [] /\ Generate.intervals p = [] /\
  Generate.toasts p = [toast_error "No job ID provided"] /\
  Generate.navigated p = ["/"].
Proof.
  intros Hq. unfold Generate.mount. rewrite Hq.
  destruct evs as [| ev evs]; simpl.
  - intros [= <-]. repeat split.
  - destruct ev as [h | t r | t]; simpl; discriminate.
Qed.

Lemma page_without_job_id_never_polls_witness :
  Generate.no_jobId (Some "") = true /\
  Generate.fetches (Generate.mount None (Some "") 0) = [] /\
  Generate.navigated (Generate.mount None (Some "") 0) = ["/"].
Proof.
  split; [reflexivity |].
  destruct (page_without_job_id_never_polls None "" (Some "") 0 []
              (Generate.mount None (Some "") 0) eq_refl eq_refl)
    as (_ & Hfs & _ & _ & Hnav).
  split; [exact Hfs | exact Hnav].
Defined.

(** The video URL of a job is never the empty string. *)
Lemma getVideoUrl_nonempty (env : option string) (jobId : string) :
  getVideoUrl env jobId <> "".
Proof.
  unfold getVideoUrl, API_BASE_URL.
  assert (or_default env "http://localhost:8000" <> "") as Hbase
    by (apply or_default_nonempty; discriminate).
  destruct (or_default env "http://localhost:8000") as [| c base];
    [contradiction | discriminate].
Qed.

(** X12. On every page that has polled, the processing section is drawn,
    and the result section is drawn exactly when the page holds the video
    URL of its job, which it holds only after it has announced that the
    video is ready; once the result section is drawn, or an error is held,
    no interval timer is left. *)
Theorem page_sections
    (env : option string) (jobId : string) (t0 : Z)
    (evs : list Generate.Event) (p : Generate.Page) :
  Generate.run env jobId (Generate.mount env (Some jobId) t0) evs = Some p ->
  (exists d,
     ProcessingSection.ProcessingSection (Generate.processingStage p) = Some d) /\
  (ResultSection.shown (Generate.videoUrl p) = true <->
   Generate.videoUrl p = Some (getVideoUrl env jobId)) /\
  (ResultSection.shown (Generate.videoUrl p) = true ->
   toast_success "Your roast video is ready!" ∈ Generate.toasts p /\
   Generate.intervals p = []) /\
  (Generate.error_state p <> None -> Generate.intervals p = []).
Proof.
  intros Hrun.
  pose proof (reachable_steady _ _ _ _ _ Hrun)
    as [_ _ _ _ Hvideo Hstage Hdone].
  split.
  - destruct (Generate.processingStage p) as [stage |]; [| contradiction].
    eexists. reflexivity.
  - assert (ResultSection.shown (Generate.videoUrl p) = true <->
            Generate.videoUrl p = Some (getVideoUrl env jobId)) as Hshown.
    { destruct Hvideo as [-> | [-> _]]; simpl.
      - split; discriminate.
      - split; [reflexivity |]. intros _.
        pose proof (getVideoUrl_nonempty env jobId) as Hne.
        apply String.eqb_neq in Hne. now rewrite Hne. }
    split; [exact Hshown |]. split.
    + intros Hs. apply Hshown in Hs. split.
      * destruct Hvideo as [Hv | [_ Hin]]; [congruence | exact Hin].
      * apply Hdone. left. congruence.
    + intros He. apply Hdone. now right.
Qed.

Lemma page_sections_witness :
  let done :=
    {| job_id := "job-1"; status := completed; progress := 100;
       message := "Done"; video_url := None; roast_text := None;
       score := Some 7; error := None |} in
  exists p : Generate.Page,
    Generate.run None "job-1" (Generate.mount None (Some "job-1") 0)
      [Generate.Arrive 300 (HttpOk (Normal done))] = Some p /\
    ResultSection.shown (Generate.videoUrl p) = true /\
    Generate.intervals p = [].
Proof.
  intros done. eexists. split; [reflexivity |]. split; [reflexivity |].
  refine (proj2 (proj1 (proj2 (proj2 (page_sections None "job-1" 0
            [Generate.Arrive 300 (HttpOk (Normal done))] _ eq_refl))) _)).
  reflexivity.
Defined.

End GenerateExtras.

(** ** The processing section *)
Section ProcessingFacts.
Import Generate ProcessingSection.

(** X13. For a stage other than [complete] the processing section draws
    its three cards in order, without the ready heading; the one card of
    the current stage is active and shows the spinner, the cards before
    it, and only those, are complete and ticked, and no card is both.  For
    [complete] it draws the ready heading and no card. *)
Theorem processing_cards (stage : ProcessingStage) (d : Drawn) :
  ProcessingSection (Some stage) = Some d ->
  match stage with
  | stage_complete => ready d = true /\ cards d = []
  | _ =>
      ready d = false /\
      (fun c => id (item c)) <$> cards d = ["analyzing"; "roasting"; "generating"] /\
      forall i c, cards d !! i = Some c ->
        (isActive c = true <-> id (item c) = stage_name stage) /\
        (isComplete c = true <->
           exists j c', (i < j)%nat /\ cards d !! j = Some c' /\
                        id (item c') = stage_name stage) /\
        spinner c = isActive c /\ tick c = isComplete c /\
        isActive c && isComplete c = false
  end.
Proof.
  intros Hd. destruct stage; injection Hd as <-; simpl;
    try (split; [reflexivity |]; split; [reflexivity |]);
    try (split; reflexivity);
    intros i c Hc;
    destruct i as [| [| [| i]]]; simpl in Hc; try discriminate;
    injection Hc as <-; simpl;
    (split; [split; [reflexivity || discriminate | reflexivity || discriminate] |]);
    (split; [| repeat split]);
    (split;
     [ first
         [ discriminate
         | intros _; exists 1%nat; eexists; split; [lia |]; split; reflexivity
         | intros _; exists 2%nat; eexists; split; [lia |]; split; reflexivity ]
     | first
         [ reflexivity
         | intros (j & c' & Hj & Hc' & Hid);
           destruct j as [| [| [| j]]]; simpl in Hc'; try discriminate;
           try lia; injection Hc' as <-; discriminate Hid ] ]).
Qed.

Lemma processing_cards_witness :
  exists d : Drawn,
    ProcessingSection (Some stage_roasting) = Some d /\
    ready d = false /\
    (isActive <$> cards d) = [false; true; false] /\
    (isComplete <$> cards d) = [true; false; false].
Proof.
  eexists. split; [reflexivity |].
  pose proof (processing_cards stage_roasting _ eq_refl) as (Hready & _).
  split; [exact Hready |]. split; reflexivity.
Defined.

End ProcessingFacts.

(** ** The upload section: what the user can make it do *)
Section UploadFlowFacts.
Import Api UploadSection.

Lemma substring_all (s : string) : String.substring 0 (String.length s) s = s.
Proof. induction s as [| c s IH]; simpl; [reflexivity | now rewrite IH]. Qed.

Lemma substring_skip (p s : string) :
  String.substring (String.length p) (String.length s) (p ++ s) = s.
Proof. induction p as [| c p IH]; simpl; [apply substring_all | exact IH]. Qed.

Lemma substring_split (s : string) (k : nat) :
  (k <= String.length s)%nat ->
  s = String.substring 0 k s ++ String.substring k (String.length s - k) s.
Proof.
  revert k. induction s as [| c s IH]; intros k Hk; simpl in Hk.
  - assert (k = 0%nat) as -> by lia. reflexivity.
  - destruct k as [| k]; simpl.
    + now rewrite substring_all.
    + change (String c s
              = String c (String.substring 0 k s
                          ++ String.substring k (String.length s - k) s)).
      f_equal. apply IH. lia.
Qed.

(** [endsWith] is what its name says. *)
Lemma endsWith_spec (s suffix : string) :
  endsWith s suffix = true <-> exists stem, s = stem ++ suffix.
Proof.
  unfold endsWith. split.
  - destruct (String.length suffix <=? String.length s)%nat eqn:Hle;
      [| discriminate].
    apply Nat.leb_le in Hle. intros Heq. apply String.eqb_eq in Heq.
    exists (String.substring 0 (String.length s - String.length suffix) s).
    pose proof (substring_split s (String.length s - String.length suffix))
      as Hsplit.
    replace (String.length s - (String.length s - String.length suffix))%nat
      with (String.length suffix) in Hsplit by lia.
    rewrite Heq in Hsplit. apply Hsplit. lia.
  - intros [stem ->]. rewrite string_length_app.
    replace (String.length suffix <=? String.length stem + String.length suffix)%nat
      with true by (symmetry; apply Nat.leb_le; lia).
    replace (String.length stem + String.length suffix - String.length suffix)%nat
      with (String.length stem) by lia.
    rewrite substring_skip. apply String.eqb_refl.
Qed.

(** X14. A file dropped or chosen while none is held becomes the uploaded
    file exactly when its type is [application/pdf] or its name ends in
    [.pdf]: the name alone is enough, whatever the type and the size; only
    the first file of the list is looked at. *)
Theorem accepted_by_type_or_name (file : File) (rest : list File) (v : View) :
  uploadedFile v = None ->
  let accepted :=
    type file = "application/pdf" \/ exists stem, name file = stem ++ ".pdf" in
  (uploadedFile (handleFileInput (Some (file :: rest)) v).2 = Some file
   <-> accepted) /\
  (uploadedFile (handleDrop (Some (file :: rest)) v).2 = Some file
   <-> accepted).
Proof.
  intros Hnone accepted.
  assert (is_pdf file = true <-> accepted) as Hpdf.
  { unfold is_pdf, accepted. rewrite orb_true_iff, String.eqb_eq, endsWith_spec.
    reflexivity. }
  unfold handleFileInput, handleDrop, take_first, mbind, Js_bind; simpl.
  destruct (is_pdf file) eqn:Hfile; simpl.
  - split; (split; [intros _; now apply Hpdf | reflexivity]).
  - rewrite Hnone.
    split; (split; [discriminate | intros Hacc; apply Hpdf in Hacc; discriminate]).
Qed.

Lemma accepted_by_type_or_name_witness :
  let renamed :=
    {| name := "notes.txt.pdf"; type := "text/plain"; size := 12 |} in
  uploadedFile initial = None /\
  uploadedFile (handleFileInput (Some [renamed]) initial).2 = Some renamed.
Proof.
  intros renamed. split; [reflexivity |].
  apply (proj1 (accepted_by_type_or_name renamed [] initial eq_refl)).
  right. exists "notes.txt". reflexivity.
Defined.

Context (env : option string).

#[local] Abbreviation ustep := (ui_step env).
#[local] Abbreviation urun := (ui_run env).
#[local] Abbreviation UInv := (UiInv env).

Lemma ui_initial_inv : UInv ui_initial.
Proof.
  split; simpl; try lia; try discriminate;
    try (unfold backgrounds; set_solver);
    try (intros rq Hrq; inversion Hrq);
    try (intros H; now destruct H).
Qed.

Lemma ui_step_inv (u u' : Ui) (ev : UiEvent) :
  UInv u -> ustep u ev = Some u' -> UInv u'.
Proof.
  destruct u as [v n]. intros [Hbg Hfile Hreq Hsingle Hbusy Hgone].
  simpl in *. unfold ui_step; simpl.
  destruct (bool_decide (navigated v = [])) eqn:Hnav; simpl; [| discriminate].
  apply bool_decide_eq_true in Hnav.
  destruct ev as [ty | files | files | | bg | | r]; simpl.
  - (* drag *)
    destruct (has_file v); [discriminate |]. intros [= <-].
    unfold handleDrag.
    destruct (String.eqb ty "dragenter" || String.eqb ty "dragover");
      [| destruct (String.eqb ty "dragleave")];
      split; simpl; assumption.
  - (* drop *)
    destruct (has_file v); [discriminate |]. intros [= <-].
    unfold handleDrop, take_first, mbind, Js_bind; simpl.
    destruct files as [[| file rest] |]; simpl;
      try (split; simpl; assumption).
    destruct (is_pdf file) eqn:Hpdf; simpl; split; simpl; try assumption.
    intros f [= <-]. exact Hpdf.
  - (* file input *)
    destruct (has_file v); [discriminate |]. intros [= <-].
    unfold handleFileInput, take_first, mbind, Js_bind; simpl.
    destruct files as [[| file rest] |]; simpl;
      try (split; simpl; assumption).
    destruct (is_pdf file) eqn:Hpdf; simpl; split; simpl; try assumption.
    intros f [= <-]. exact Hpdf.
  - (* remove *)
    destruct (has_file v); [| discriminate]. intros [= <-].
    split; simpl; try assumption. discriminate.
  - (* background *)
    destruct (has_file v); simpl; [| discriminate].
    destruct (bool_decide (bg ∈ backgrounds)) eqn:Hin; [| discriminate].
    apply bool_decide_eq_true in Hin. intros [= <-].
    split; simpl; assumption.
  - (* generate *)
    unfold has_file. destruct (uploadedFile v) as [f |] eqn:Hf; simpl;
      [| discriminate].
    destruct (isUploading v) eqn:Hup; simpl; [discriminate |].
    intros [= <-].
    assert (n = 0%nat) as ->.
    { destruct n as [| [| n]]; [reflexivity | | lia].
      specialize (Hbusy eq_refl). discriminate. }
    unfold handleGenerateRoast_call; simpl. rewrite Hf. simpl.
    split; simpl; try assumption; try lia; try reflexivity.
    + rewrite Hf. exact Hfile.
    + intros rq Hrq. apply elem_of_app in Hrq as [Hrq | Hrq]; [auto |].
      apply list_elem_of_singleton in Hrq. exists f, (backgroundVideo v).
      split; [exact Hrq |]. split; [now apply Hfile | exact Hbg].
    + intros Hne. contradiction.
  - (* the upload ends *)
    destruct n as [| n]; [discriminate |]. intros [= <-].
    assert (n = 0%nat) as -> by lia.
    unfold handleGenerateRoast_resume, try_catch, mbind, Js_bind; simpl.
    destruct (uploadResume_result r) as [resp | e]; simpl;
      split; simpl; try assumption; try lia; try discriminate;
      try reflexivity.
Qed.

Lemma ui_run_inv (evs : list UiEvent) (u u' : Ui) :
  UInv u -> urun u evs = Some u' -> UInv u'.
Proof.
  revert u. induction evs as [| ev evs IH]; simpl; intros u Hu Hrun.
  - now injection Hrun as <-.
  - destruct (ustep u ev) as [u1 |] eqn:Hstep; [| discriminate].
    eapply IH; [eapply ui_step_inv |]; eassumption.
Qed.

End UploadFlowFacts.

Section UploadFlowExtras.
Import Api UploadSection.

(** X15. Whatever the user does with the section, every request it sends
    is a POST to the upload endpoint whose form carries, in this order, a
    file that passed the PDF check and one of the backgrounds the section
    offers. *)
Theorem upload_requests_are_well_formed
    (env : option string) (evs : list UiEvent) (u : Ui) (rq : Request) :
  ui_run env ui_initial evs = Some u ->
  rq ∈ requests (view u) ->
  exists file bg,
    url rq = API_BASE_URL env ++ "/api/upload" /\ method rq = POST /\
    body rq = [("file", FormFile file); ("background_video", FormText bg)] /\
    is_pdf file = true /\ bg ∈ backgrounds.
Proof.
  intros Hrun Hrq.
  pose proof (ui_run_inv env evs _ _ (ui_initial_inv env) Hrun) as HI.
  destruct (ui_requests env u HI rq Hrq) as (f & bg & -> & Hpdf & Hbg).
  exists f, bg. repeat split; assumption.
Qed.

Lemma upload_requests_are_well_formed_witness :
  let cv := {| name := "cv.pdf"; type := "application/pdf"; size := 2048 |} in
  exists u : Ui,
    ui_run None ui_initial
      [FileInput (Some [cv]); BackgroundChange "minecraft"; GenerateRoast]
      = Some u /\
    requests (view u) = [uploadResume_request None cv (Some "minecraft")] /\
    exists file bg,
      url (uploadResume_request None cv (Some "minecraft"))
        = API_BASE_URL None ++ "/api/upload" /\
      method (uploadResume_request None cv (Some "minecraft")) = POST /\
      body (uploadResume_request None cv (Some "minecraft"))
        = [("file", FormFile file); ("background_video", FormText bg)] /\
      is_pdf file = true /\ bg ∈ backgrounds.
Proof.
  intros cv. eexists. split; [reflexivity |]. split; [reflexivity |].
  refine (upload_requests_are_well_formed None
            [FileInput (Some [cv]); BackgroundChange "minecraft"; GenerateRoast]
            _ _ eq_refl _).
  left.
Defined.

(** X16. The section never has two uploads pending: while one is awaited
    the generate button does nothing, and so does every control once the
    page has navigated to the job. *)
Theorem one_upload_at_a_time
    (env : option string) (evs : list UiEvent) (u : Ui) :
  ui_run env ui_initial evs = Some u ->
  (awaiting u <= 1)%nat /\
  (awaiting u = 1%nat -> ui_step env u GenerateRoast = None) /\
  (navigated (view u) <> [] ->
   awaiting u = 0%nat /\ forall ev, ui_step env u ev = None).
Proof.
  intros Hrun.
  pose proof (ui_run_inv env evs _ _ (ui_initial_inv env) Hrun)
    as [_ _ _ Hsingle Hbusy Hgone].
  split; [exact Hsingle |]. split.
  - intros Hone. unfold ui_step.
    destruct (negb (bool_decide (navigated (view u) = []))); [reflexivity |].
    rewrite (Hbusy Hone). now rewrite andb_false_r.
  - intros Hnav. split; [now apply Hgone |].
    intros ev. unfold ui_step.
    now rewrite bool_decide_eq_false_2.
Qed.

Lemma one_upload_at_a_time_witness :
  let cv := {| name := "cv.pdf"; type := "application/pdf"; size := 2048 |} in
  exists u : Ui,
    ui_run None ui_initial [Drop (Some [cv]); GenerateRoast] = Some u /\
    awaiting u = 1%nat /\ ui_step None u GenerateRoast = None.
Proof.
  intros cv. eexists. split; [reflexivity |]. split; [reflexivity |].
  refine (proj1 (proj2 (one_upload_at_a_time None
            [Drop (Some [cv]); GenerateRoast] _ eq_refl)) _).
  reflexivity.
Defined.

(** X17. The page navigates only when an upload has succeeded, and then to
    the generate page of the job id the upload answered with; nothing else
    the user or the server does changes where the page is. *)
Theorem navigates_only_after_success
    (env : option string) (evs : list UiEvent) (u u' : Ui) (ev : UiEvent) :
  ui_run env ui_initial evs = Some u ->
  ui_step env u ev = Some u' ->
  (navigated (view u) = [] /\ navigated (view u') = []) \/
  exists response,
    ev = UploadReply (HttpOk (Normal response)) /\
    navigated (view u') = ["/generate?jobId=" ++ upload_job_id response].
Proof.
  intros _. destruct u as [v n]. unfold ui_step; simpl.
  destruct (bool_decide (navigated v = [])) eqn:Hnav; simpl; [| discriminate].
  apply bool_decide_eq_true in Hnav.
  destruct ev as [ty | files | files | | bg | | r]; simpl.
  - destruct (has_file v); [discriminate |]. intros [= <-]. left.
    unfold handleDrag.
    destruct (_ || _); [| destruct (String.eqb ty "dragleave")];
      split; assumption.
  - destruct (has_file v); [discriminate |]. intros [= <-]. left.
    unfold handleDrop, take_first, mbind, Js_bind; simpl.
    destruct files as [[| file rest] |]; simpl; try (split; assumption).
    destruct (is_pdf file); simpl; split; assumption.
  - destruct (has_file v); [discriminate |]. intros [= <-]. left.
    unfold handleFileInput, take_first, mbind, Js_bind; simpl.
    destruct files as [[| file rest] |]; simpl; try (split; assumption).
    destruct (is_pdf file); simpl; split; assumption.
  - destruct (has_file v); [| discriminate]. intros [= <-]. left.
    split; assumption.
  - destruct (_ && _); [| discriminate]. intros [= <-]. left.
    split; assumption.
  - destruct (_ && _); [| discriminate]. intros [= <-]. left.
    unfold handleGenerateRoast_call.
    destruct (uploadedFile v); simpl; split; assumption.
  - destruct n as [| n]; [discriminate |]. intros [= <-].
    unfold handleGenerateRoast_resume, try_catch, mbind, Js_bind; simpl.
    destruct r as [e | [response | e] | d]; simpl.
    + left. split; assumption.
    + right. exists response. split; [reflexivity |]. now rewrite Hnav.
    + left. split; assumption.
    + left. split; assumption.
Qed.

Lemma navigates_only_after_success_witness :
  let cv := {| name := "cv.pdf"; type := "application/pdf"; size := 2048 |} in
  let answer := {| upload_job_id := "42"; upload_message := "started" |} in
  exists u u' : Ui,
    ui_run None ui_initial [Drop (Some [cv]); GenerateRoast] = Some u /\
    ui_step None u (UploadReply (HttpOk (Normal answer))) = Some u' /\
    navigated (view u') = ["/generate?jobId=42"].
Proof.
  intros cv answer. eexists _, _.
  split; [reflexivity |]. split; [reflexivity |].
  destruct (navigates_only_after_success None
              [Drop (Some [cv]); GenerateRoast] _ _
              (UploadReply (HttpOk (Normal answer))) eq_refl eq_refl)
    as [[_ Hnone] | (response & Hev & Hnav)].
  - discriminate Hnone.
  - injection Hev as <-. exact Hnav.
Defined.

(** X18. An upload that fails leaves the page where it is, shows the
    failure to the user (the message of the error thrown, which for a
    response that is not ok is the detail the server gave) and enables
    the generate button again: with the file still held, the upload can be
    sent once more. *)
Theorem failed_upload_can_be_retried
    (env : option string) (evs : list UiEvent) (u u' : Ui)
    (r : Reply UploadResponse) (e : Exn) :
  ui_run env ui_initial evs = Some u ->
  ui_step env u (UploadReply r) = Some u' ->
  uploadResume_result r = Throw e ->
  navigated (view u') = [] /\ awaiting u' = 0%nat /\
  isUploading (view u') = false /\
  requests (view u') = requests (view u) /\
  toasts (view u')
    = (toasts (view u)
       ++ [toast_error (match e with
                        | Error message => message
                        | NonError _ => "Failed to upload resume"
                        end)])%list /\
  (forall file, uploadedFile (view u) = Some file ->
     exists u'',
       ui_step env u' GenerateRoast = Some u'' /\
       requests (view u'')
         = (requests (view u)
            ++ [uploadResume_request env file
                  (Some (backgroundVideo (view u)))])%list).
Proof.
  intros Hrun Hstep Hthrow.
  pose proof (ui_run_inv env evs _ _ (ui_initial_inv env) Hrun)
    as [_ _ _ Hsingle _ _].
  destruct u as [v n]. unfold ui_step in Hstep; simpl in *.
  destruct (bool_decide (navigated v = [])) eqn:Hnav; simpl in Hstep;
    [| discriminate].
  apply bool_decide_eq_true in Hnav.
  destruct n as [| n]; [discriminate |]. injection Hstep as <-.
  assert (n = 0%nat) as -> by lia.
  unfold handleGenerateRoast_resume, try_catch, mbind, Js_bind; simpl.
  rewrite Hthrow. simpl. repeat split; try assumption.
  intros file Hfile. eexists. unfold ui_step; simpl.
  rewrite Hnav. simpl. unfold has_file; simpl. rewrite Hfile. simpl.
  split; [reflexivity |].
  unfold handleGenerateRoast_call; simpl. reflexivity.
Qed.

Lemma failed_upload_can_be_retried_witness :
  let cv := {| name := "cv.pdf"; type := "application/pdf"; size := 2048 |} in
  exists u u' : Ui,
    ui_run None ui_initial [Drop (Some [cv]); GenerateRoast] = Some u /\
    ui_step None u
      (UploadReply (HttpFail (Normal (with_detail (Some (of_string "Only PDF files are supported"))))))
      = Some u' /\
    isUploading (view u') = false /\
    toasts (view u')
      = [toast_success "Resume uploaded successfully!";
         toast_error "Only PDF files are supported"].
Proof.
  intros cv. eexists _, _.
  split; [reflexivity |]. split; [reflexivity |].
  destruct (failed_upload_can_be_retried None
              [Drop (Some [cv]); GenerateRoast] _ _
              (HttpFail (Normal (with_detail (Some (of_string "Only PDF files are supported")))))
              (Error "Only PDF files are supported")
              eq_refl eq_refl eq_refl)
    as (_ & _ & Hup & _ & Hts & _).
  split; [exact Hup | exact Hts].
Defined.

End UploadFlowExtras.

Section LateReplies.
Import Api.

(** X19. A reply that comes in after the page has shown the video still
    moves the stage: a late status of [analyzing], [roasting] or
    [generating] puts the processing section back on that stage while the
    result section stays drawn, and it neither brings the interval back
    nor issues a read. *)
Theorem late_reply_overrides_stage
    (env : option string) (jobId : string) (t0 t : Z)
    (evs : list Generate.Event) (st : JobStatus) (p p' : Generate.Page)
    (stage : Generate.ProcessingStage) :
  Generate.run env jobId (Generate.mount env (Some jobId) t0) evs = Some p ->
  ResultSection.shown (Generate.videoUrl p) = true ->
  Generate.step env jobId p (Generate.Arrive t (HttpOk (Normal st))) = Some p' ->
  (status st = analyzing /\ stage = Generate.stage_analyzing) \/
  (status st = roasting /\ stage = Generate.stage_roasting) \/
  (status st = generating /\ stage = Generate.stage_generating) ->
  Generate.processingStage p' = Some stage /\
  ResultSection.shown (Generate.videoUrl p') = true /\
  Generate.intervals p' = [] /\
  Generate.fetches p' = Generate.fetches p.
Proof.
  intros Hrun Hshown Hstep Hstage.
  pose proof (grun_inv env jobId evs _ _ (mount_inv env _ t0) Hrun) as HI.
  pose proof (reachable_steady _ _ _ _ _ Hrun) as HS.
  assert (Generate.intervals p = []) as Hnone.
  { apply (Generate.steady_done _ _ _ _ HS). left.
    destruct (Generate.videoUrl p); [discriminate | discriminate]. }
  destruct (no_interval_step env jobId _ _ _ Hnone Hstep) as (Hiv & Hfs & _).
  simpl in Hstep. destruct (Generate.inflight p) as [| n]; [discriminate |].
  destruct (_ && _); [| discriminate]. injection Hstep as <-.
  match goal with
  | |- context [Generate.task _ ?p0] =>
      pose proof (resume_shows env jobId (HttpOk (Normal st)) p0) as Hshow
  end.
  simpl in Hshow.
  destruct Hstage as [[Hst ->] | [[Hst ->] | [Hst ->]]];
    rewrite Hst in Hshow; destruct Hshow as (Hv & Hps & _);
    (split; [exact Hps |]); (split; [now rewrite Hv |]);
    (split; [exact Hiv | exact Hfs]).
Qed.

Lemma late_reply_overrides_stage_witness :
  let status_of (x : Status) :=
    {| job_id := "job-1"; status := x; progress := 0; message := "";
       video_url := None; roast_text := None; score := None;
       error := None |} in
  exists p p' : Generate.Page,
    Generate.run None "job-1" (Generate.mount None (Some "job-1") 0)
      [Generate.Tick 1; Generate.Arrive 2300 (HttpOk (Normal (status_of completed)))]
      = Some p /\
    ResultSection.shown (Generate.videoUrl p) = true /\
    Generate.step None "job-1" p
      (Generate.Arrive 2600 (HttpOk (Normal (status_of roasting)))) = Some p' /\
    Generate.processingStage p' = Some Generate.stage_roasting /\
    ResultSection.shown (Generate.videoUrl p') = true.
Proof.
  intros status_of. eexists _, _.
  split; [reflexivity |]. split; [reflexivity |]. split; [reflexivity |].
  destruct (late_reply_overrides_stage None "job-1" 0 2600
              [Generate.Tick 1;
               Generate.Arrive 2300 (HttpOk (Normal (status_of completed)))]
              (status_of roasting) _ _ Generate.stage_roasting
              eq_refl eq_refl eq_refl
              (or_intror (or_introl (conj eq_refl eq_refl))))
    as (Hps & Hv & _).
  split; [exact Hps | exact Hv].
Defined.

(** X20. None of the five functions that call the API returns a value
    unless the response is ok and its body parses: a request that fails on
    the network rethrows that failure unchanged, and a response that is not
    ok always throws.  [uploadResume], [getJobStatus], [getResult] and
    [checkHealth] return the parsed body as it is. *)
Theorem value_only_from_ok_response :
  (forall r v, uploadResume_result r = Normal v -> r = HttpOk (Normal v)) /\
  (forall r v, getJobStatus_result r = Normal v -> r = HttpOk (Normal v)) /\
  (forall r v, getResult_result r = Normal v -> r = HttpOk (Normal v)) /\
  (forall r v, checkHealth_result r = Normal v -> r = HttpOk (Normal v)) /\
  (forall r v, getAvailableBackgrounds_result r = Normal v ->
               exists data, r = HttpOk (Normal data)) /\
  (forall e,
     uploadResume_result (NetworkError e) = Throw e /\
     getJobStatus_result (NetworkError e) = Throw e /\
     getResult_result (NetworkError e) = Throw e /\
     checkHealth_result (NetworkError e) = Throw e /\
     getAvailableBackgrounds_result (NetworkError e) = Throw e).
Proof.
  repeat split;
    try (intros r v Hv; destruct r as [e | [parsed | e] | d];
         simpl in Hv; try discriminate;
         first [now injection Hv as -> | now eexists]).
Qed.

End LateReplies.
